(** * Smart Parking Lot Management System: the data operations of main_app.py

    A shallow embedding of the SQLite store and of the three handlers of
    [main_app.py] that write to it:

    - [update_slots]  (inside [add_slots_window]),
    - [submit]        (inside [add_vehicle_window]),
    - [submit_exit]   (inside [exit_vehicle_window]),

    together with the read-only totals of [update_status_label] and
    [payments_window], the queries behind [refresh_main_table],
    [view_parked_window], [payments_window] and [slot_status_window], and
    the position update of [move_car].

    Modelling conventions.

    - A table is the list of its rows in rowid order.  Rows are only ever
      appended with a rowid larger than every rowid of the table, so the list
      order is the order of a full table scan.
    - [INTEGER PRIMARY KEY AUTOINCREMENT] is modelled with the counter that
      SQLite keeps in [sqlite_sequence]; rowids are unbounded integers.
    - A Python [str] is a [string] of code points below 256.
    - A [datetime] is a number of microseconds on the local time line.  A
      text column written with [strftime("%Y-%m-%d %H:%M:%S")] is represented
      by the number of whole seconds it denotes; [strptime] with the same
      format reads it back exactly.
    - A [REAL] / Python [float] is represented by the rational it denotes.
      Every amount the program writes is a whole number of currency units,
      on which double-precision arithmetic is exact.  The two quotients
      behind the billed minutes are not exact in general: they are rounded
      to double precision as IEEE 754 prescribes (module [Double]).
    - A [sqlite3] connection is a pair of the committed file contents and the
      working copy of the open transaction; [close] without [commit] drops
      the working copy. *)

From Stdlib Require Import ZArith List String Ascii Bool Lia QArith Qreduction.
From Stdlib Require Import Qcanon DecimalString DecimalZ DecimalPos Finite.
From Stdlib Require Import Sorted Permutation Qpower Qabs Lqa.
Import ListNotations.

Local Open Scope string_scope.
Local Open Scope Z_scope.

(** ** Python strings *)

Module Str.

(** Code points below 256 for which [str.isspace] holds; these are the
    characters removed by [str.strip()] without argument. *)
Definition isspace (c : ascii) : bool :=
  let n := N_of_ascii c in
  ((9 <=? n) && (n <=? 13) || (28 <=? n) && (n <=? 32)
   || (n =? 133) || (n =? 160))%N.

Fixpoint lstrip (s : string) : string :=
  match s with
  | EmptyString => EmptyString
  | String c s' => if isspace c then lstrip s' else s
  end.

(** [rstrip] drops the trailing run of whitespace: a character is kept when
    it is not whitespace or when something is kept after it. *)
Fixpoint rstrip (s : string) : string :=
  match s with
  | EmptyString => EmptyString
  | String c s' =>
      match rstrip s' with
      | EmptyString => if isspace c then EmptyString else String c EmptyString
      | r => String c r
      end
  end.

Definition strip (s : string) : string := rstrip (lstrip s).

(** Truth value of a string: [not vnum] holds for the empty string only. *)
Definition truthy (s : string) : bool :=
  match s with EmptyString => false | _ => true end.

(** [f"{i}"] for an [int]. *)
Definition of_int (i : Z) : string := NilZero.string_of_int (Z.to_int i).

End Str.

(** ** Time *)

(** [datetime.now()]: microseconds. *)
Definition datetime := Z.

(** A ["YYYY-MM-DD HH:MM:SS"] text: whole seconds. *)
Definition timestamp := Z.

(** [dt.strftime("%Y-%m-%d %H:%M:%S")]: the microsecond field is dropped. *)
Definition strftime (dt : datetime) : timestamp := dt / 1000000.

(** [datetime.strptime(s, "%Y-%m-%d %H:%M:%S")]: microsecond field 0. *)
Definition strptime (s : timestamp) : datetime := s * 1000000.

(** ** Numbers *)

(** Nearest integer to a rational, ties to the even neighbour. *)
Definition round_half_even (q : Q) : Z :=
  let n := Qnum q in
  let d := Zpos (Qden q) in
  let f := n / d in
  let r := 2 * (n mod d) in
  if r <? d then f
  else if d <? r then f + 1
  else if Z.even f then f else f + 1.

(** [round(x, 2)]. *)
Definition round2 (x : Q) : Q :=
  Qred (round_half_even (x * 100) # 100).

(** Double-precision arithmetic on the rationals that doubles denote.  The
    exponent range is left out: every quotient formed from two datetimes
    lies far inside it. *)
Module Double.

(** 2^t. *)
Definition pow2 (t : Z) : Q := Qpower 2 t.

(** The binade of a positive rational: the [L] with 2^L <= q < 2^(L+1). *)
Definition ilog2 (q : Q) : Z :=
  let k := Z.log2 (Qnum q) - Z.log2 (Zpos (Qden q)) in
  if Qle_bool (pow2 k) q then k else k - 1.

(** The double nearest to a positive rational, ties to the even
    significand: 53 significant bits, so the significand is the rational
    scaled into [2^52, 2^53) and rounded to an integer. *)
Definition round_pos (q : Q) : Q :=
  let L := ilog2 q in
  inject_Z (round_half_even (q * pow2 (52 - L))) * pow2 (L - 52).

(** The double nearest to a rational. *)
Definition round (q : Q) : Q :=
  match Qnum q with
  | Z0 => 0%Q
  | Zpos _ => round_pos q
  | Zneg _ => (- round_pos (- q))%Q
  end.

(** [int(x)] of a float: truncation toward zero. *)
Definition trunc (q : Q) : Z := Z.quot (Qnum q) (Zpos (Qden q)).

End Double.

(** [int((now - entry_dt).total_seconds() / 60)].  [total_seconds()] is the
    correctly rounded quotient of the microseconds by 10^6, the division by
    60 is a double division, and [int] truncates toward zero. *)
Definition elapsed_minutes (now entry_dt : datetime) : Z :=
  let total_seconds := Double.round ((now - entry_dt) # 1000000) in
  Double.trunc (Double.round (total_seconds / 60)).

(** 2^34 seconds, a little over 544 years: for shorter stays the two
    roundings of [elapsed_minutes] lose nothing. *)
Definition exact_stay_limit : Z := 17179869184.

(** ** Rows and tables *)

Record slot := mk_slot
  { slot_id : Z;
    slot_number : string;
    is_occupied : Z }.

Record vehicle := mk_vehicle
  { vehicle_id : Z;
    owner_name : string;
    vehicle_number : string;
    v_slot_id : Z;
    entry_time : timestamp;
    exit_time : option timestamp }.

Record payment := mk_payment
  { payment_id : Z;
    p_vehicle_id : Z;
    amount : Q;
    payment_time : timestamp }.

(** The contents of [parking.db]: the three tables and the three
    [sqlite_sequence] counters. *)
Record database := mk_db
  { slots : list slot;
    vehicles : list vehicle;
    payments : list payment;
    seq_slots : Z;
    seq_vehicles : Z;
    seq_payments : Z }.

(** [ensure_tables_exist] on a missing file. *)
Definition empty_db : database := mk_db [] [] [] 0 0 0.

(** ** SQL statements *)

Module Sql.

Inductive result (A : Type) : Type :=
| Ok (a : A)
| IntegrityError.
Arguments Ok {A} a.
Arguments IntegrityError {A}.

(** Rowid of the next row of an AUTOINCREMENT table: one more than the
    largest rowid ever used. *)
Definition next_rowid (seq : Z) (ids : list Z) : Z :=
  fold_right Z.max seq ids + 1.

(** [INSERT OR IGNORE INTO slots (slot_number, is_occupied) VALUES (?, 0)].
    The rowid is drawn before the UNIQUE check, so an ignored row still
    advances the counter. *)
Definition insert_or_ignore_slot (name : string) (w : database) : database :=
  let rowid := next_rowid (seq_slots w) (map slot_id (slots w)) in
  if existsb (fun s => String.eqb (slot_number s) name) (slots w)
  then mk_db (slots w) (vehicles w) (payments w)
             rowid (seq_vehicles w) (seq_payments w)
  else mk_db (slots w ++ [mk_slot rowid name 0]) (vehicles w) (payments w)
             rowid (seq_vehicles w) (seq_payments w).

(** [SELECT slot_id, slot_number FROM slots WHERE is_occupied=0 LIMIT 1]. *)
Definition select_free_slot (w : database) : option (Z * string) :=
  match find (fun s => is_occupied s =? 0) (slots w) with
  | Some s => Some (slot_id s, slot_number s)
  | None => None
  end.

(** [INSERT INTO vehicles (owner_name, vehicle_number, slot_id, entry_time)
    VALUES (?,?,?,?)]: [vehicle_number] is UNIQUE over the whole table; a
    failed statement leaves nothing behind. *)
Definition insert_vehicle (owner vnum : string) (sid : Z) (t : timestamp)
    (w : database) : result database :=
  if existsb (fun v => String.eqb (vehicle_number v) vnum) (vehicles w)
  then IntegrityError
  else
    let rowid := next_rowid (seq_vehicles w) (map vehicle_id (vehicles w)) in
    Ok (mk_db (slots w)
              (vehicles w ++ [mk_vehicle rowid owner vnum sid t None])
              (payments w)
              (seq_slots w) rowid (seq_payments w)).

(** [UPDATE slots SET is_occupied=? WHERE slot_id=?]. *)
Definition update_slot_occupied (occ sid : Z) (w : database) : database :=
  mk_db (map (fun s => if slot_id s =? sid
                       then mk_slot (slot_id s) (slot_number s) occ else s)
             (slots w))
        (vehicles w) (payments w)
        (seq_slots w) (seq_vehicles w) (seq_payments w).

(** [SELECT v.vehicle_id, v.entry_time, v.slot_id, s.slot_number
     FROM vehicles v JOIN slots s ON v.slot_id = s.slot_id
     WHERE v.vehicle_number=? AND v.exit_time IS NULL], first row. *)
Definition joined (w : database) (v : vehicle) : option slot :=
  find (fun s => slot_id s =? v_slot_id v) (slots w).

Definition is_active (v : vehicle) : bool :=
  match exit_time v with None => true | Some _ => false end.

Definition select_active (vnum : string) (w : database)
    : option (Z * timestamp * Z * string) :=
  match find (fun v => String.eqb (vehicle_number v) vnum && is_active v
                       && match joined w v with Some _ => true | None => false end)
             (vehicles w) with
  | Some v =>
      match joined w v with
      | Some s => Some (vehicle_id v, entry_time v, v_slot_id v, slot_number s)
      | None => None
      end
  | None => None
  end.

(** [UPDATE vehicles SET exit_time=? WHERE vehicle_id=?]. *)
Definition update_exit_time (t : timestamp) (vid : Z) (w : database) : database :=
  mk_db (slots w)
        (map (fun v => if vehicle_id v =? vid
                       then mk_vehicle (vehicle_id v) (owner_name v)
                              (vehicle_number v) (v_slot_id v) (entry_time v)
                              (Some t)
                       else v)
             (vehicles w))
        (payments w)
        (seq_slots w) (seq_vehicles w) (seq_payments w).

(** [INSERT INTO payments (vehicle_id, amount, payment_time) VALUES (?,?,?)]. *)
Definition insert_payment (vid : Z) (amt : Q) (t : timestamp) (w : database)
    : database :=
  let rowid := next_rowid (seq_payments w) (map payment_id (payments w)) in
  mk_db (slots w) (vehicles w)
        (payments w ++ [mk_payment rowid vid amt t])
        (seq_slots w) (seq_vehicles w) rowid.

(** [SELECT COUNT( * ) FROM slots]. *)
Definition count_slots (w : database) : Z := Z.of_nat (List.length (slots w)).

(** [SELECT COUNT( * ) FROM slots WHERE is_occupied=0]. *)
Definition count_free (w : database) : Z :=
  Z.of_nat (List.length (filter (fun s => is_occupied s =? 0) (slots w))).

(** [SELECT COUNT( * ) FROM vehicles WHERE exit_time IS NULL]. *)
Definition count_parked (w : database) : Z :=
  Z.of_nat (List.length (filter is_active (vehicles w))).

(** [SUM(amount)]: NULL on an empty table. *)
Definition sum_amount (w : database) : option Q :=
  match payments w with
  | [] => None
  | _ => Some (fold_left Qplus (map amount (payments w)) 0%Q)
  end.

(** [COALESCE(x, 0)]. *)
Definition coalesce0 (x : option Q) : Q :=
  match x with Some q => q | None => 0%Q end.

End Sql.

(** ** Connections *)

Record connection := mk_conn
  { committed : database;
    working : database }.

(** [get_connection()] on a file holding [db]. *)
Definition get_connection (db : database) : connection := mk_conn db db.

(** A statement run on the cursor of the connection. *)
Definition execute (f : database -> database) (conn : connection) : connection :=
  mk_conn (committed conn) (f (working conn)).

(** [conn.commit()]. *)
Definition commit (conn : connection) : connection :=
  mk_conn (working conn) (working conn).

(** [conn.close()]: what the file holds afterwards. *)
Definition close (conn : connection) : database := committed conn.

(** A statement that can raise: the working copy changes only when the
    statement succeeds. *)
Definition try_execute (f : database -> Sql.result database) (conn : connection)
    : Sql.result connection :=
  match f (working conn) with
  | Sql.Ok w => Sql.Ok (mk_conn (committed conn) w)
  | Sql.IntegrityError => Sql.IntegrityError
  end.

(** ** The handlers *)

(** What the handler shows to the user; one constructor per message box. *)
Inductive slots_outcome :=
| Invalid                      (* showerror "Invalid" *)
| Success (count : Z).         (* showinfo "Success", total slots *)

Inductive park_outcome :=
| Park_Input                   (* showwarning "Input" *)
| Park_Full                    (* showerror "Full" *)
| Parked (slot_no : string)    (* showinfo "Parked" *)
| Park_Error.                  (* showerror "Error": vehicle number exists *)

Inductive exit_outcome :=
| Exit_Input                   (* showwarning "Input" *)
| Not_found                    (* showerror "Not found" *)
| Payment (vnum slot_no : string) (minutes : Z) (amount : Q).

(** [range(lo, hi)]. *)
Definition range (lo hi : Z) : list Z :=
  map (fun k => lo + Z.of_nat k) (seq 0 (Z.to_nat (hi - lo))).

(** [f"Slot-{i}"]. *)
Definition slot_name (i : Z) : string := "Slot-" ++ Str.of_int i.

(** The [for] loop of [update_slots]. *)
Definition insert_slots (total : Z) (w : database) : database :=
  fold_left (fun w i => Sql.insert_or_ignore_slot (slot_name i) w)
            (range 1 (total + 1)) w.

(** [add_slots_window.update_slots].  [total] is the value of
    [int(entry.get().strip())], [None] when [int] raises [ValueError]. *)
Definition update_slots (db : database) (total : option Z)
    : slots_outcome * database :=
  match total with
  | None => (Invalid, db)
  | Some total =>
      if total <=? 0 then (Invalid, db)
      else
        let conn := get_connection db in
        let conn := execute (insert_slots total) conn in
        let conn := commit conn in
        let count := Sql.count_slots (working conn) in
        (Success count, close conn)
  end.

(** [add_vehicle_window.submit].  [win_owner] and [win_number] are the texts
    of the two entry fields, [now] is [datetime.now()]. *)
Definition submit (db : database) (win_owner win_number : string)
    (now : datetime) : park_outcome * database :=
  let owner := Str.strip win_owner in
  let vnum := Str.strip win_number in
  if negb (Str.truthy vnum) then (Park_Input, db)
  else
    let conn := get_connection db in
    match Sql.select_free_slot (working conn) with
    | None => (Park_Full, close conn)
    | Some (slot_id, slot_no) =>
        let entry_time := strftime now in
        match try_execute
                (Sql.insert_vehicle owner vnum slot_id entry_time) conn with
        | Sql.Ok conn =>
            let conn := execute (Sql.update_slot_occupied 1 slot_id) conn in
            let conn := commit conn in
            (Parked slot_no, close conn)
        | Sql.IntegrityError => (Park_Error, close conn)
        end
    end.

Definition rate_per_min : Q := 1.

(** [exit_vehicle_window.submit_exit]. *)
Definition submit_exit (db : database) (win_number : string) (now : datetime)
    : exit_outcome * database :=
  let vnum := Str.strip win_number in
  if negb (Str.truthy vnum) then (Exit_Input, db)
  else
    let conn := get_connection db in
    match Sql.select_active vnum (working conn) with
    | None => (Not_found, close conn)
    | Some (vehicle_id, entry_time_str, slot_id, slot_no) =>
        let entry_dt := strptime entry_time_str in
        let minutes := elapsed_minutes now entry_dt in
        let minutes := Z.max 1 minutes in
        let amount := round2 (inject_Z minutes * rate_per_min) in
        let conn := execute (Sql.update_exit_time (strftime now) vehicle_id) conn in
        let conn := execute (Sql.update_slot_occupied 0 slot_id) conn in
        let conn := execute (Sql.insert_payment vehicle_id amount (strftime now)) conn in
        let conn := commit conn in
        (Payment vnum slot_no minutes amount, close conn)
    end.

(** The three numbers of [update_status_label]. *)
Definition update_status_label (db : database) : Z * Z * Z :=
  (Sql.count_slots db, Sql.count_free db, Sql.count_parked db).

(** The revenue line of [payments_window]:
    [total = cur.fetchone()[0] or 0], shown as [round(total, 2)]. *)
Definition payments_total (db : database) : Q :=
  let total := Sql.coalesce0 (Sql.sum_amount db) in
  let total := if Qeq_bool total 0 then 0%Q else total in
  round2 total.

(** ** Runs of the application *)

Inductive op :=
| Update_slots (total : option Z)
| Submit (win_owner win_number : string) (now : datetime)
| Submit_exit (win_number : string) (now : datetime).

Definition run (o : op) (db : database) : database :=
  match o with
  | Update_slots total => snd (update_slots db total)
  | Submit win_owner win_number now => snd (submit db win_owner win_number now)
  | Submit_exit win_number now => snd (submit_exit db win_number now)
  end.

Definition run_all (ops : list op) (db : database) : database :=
  fold_left (fun d o => run o d) ops db.

Inductive reachable : database -> Prop :=
| reach_init : reachable empty_db
| reach_step db o : reachable db -> reachable (run o db).

(** ** Predicates on stores *)

(** A row of [vehicles] with this number exists. *)
Definition known (db : database) (vnum : string) : bool :=
  existsb (fun v => String.eqb (vehicle_number v) vnum) (vehicles db).

(** A row of [vehicles] with this number and [exit_time IS NULL] exists. *)
Definition has_active (db : database) (vnum : string) : bool :=
  existsb (fun v => String.eqb (vehicle_number v) vnum && Sql.is_active v)
          (vehicles db).

(** The PRIMARY KEY and UNIQUE constraints declared by
    [ensure_tables_exist]. *)
Record schema_ok (db : database) : Prop := mk_schema_ok
  { slot_id_key : NoDup (map slot_id (slots db));
    slot_number_unique : NoDup (map slot_number (slots db));
    vehicle_id_key : NoDup (map vehicle_id (vehicles db));
    vehicle_number_unique : NoDup (map vehicle_number (vehicles db));
    payment_id_key : NoDup (map payment_id (payments db)) }.

(** The relationship invariants between the three tables. *)
Record consistent (db : database) : Prop := mk_consistent
  { active_slot_occupied :
      forall v, In v (vehicles db) -> exit_time v = None ->
        exists s, In s (slots db) /\ slot_id s = v_slot_id v
                  /\ is_occupied s = 1;
    active_slot_exclusive :
      forall v1 v2, In v1 (vehicles db) -> In v2 (vehicles db) ->
        exit_time v1 = None -> exit_time v2 = None ->
        v_slot_id v1 = v_slot_id v2 -> v1 = v2;
    closed_has_payment :
      forall v t, In v (vehicles db) -> exit_time v = Some t ->
        exists p, In p (payments db) /\ p_vehicle_id p = vehicle_id v }.

(** The billing rule in the words of the specification: billed minutes of a
    stay from [T0] to [T1] (seconds), and the fee for them. *)
Definition spec_minutes (T0 T1 : timestamp) : Z := Z.max 1 ((T1 - T0) / 60).

Definition spec_fee (minutes : Z) : Q := round2 (inject_Z minutes * 1).

(** The labels present in [slots]. *)
Definition labels (db : database) : list string := map slot_number (slots db).

(** The payments recorded for a session. *)
Definition payments_of (vid : Z) (db : database) : list payment :=
  filter (fun p => p_vehicle_id p =? vid) (payments db).

(** Every recorded amount is a whole number of currency units. *)
Definition whole_amounts (db : database) : Prop :=
  forall p, In p (payments db) -> exists m, amount p = inject_Z m.

(** ** The stores written by the successful branches *)

(** The store after a successful [submit]. *)
Definition park_store (db : database) (owner vnum : string) (sid : Z)
    (t : timestamp) : database :=
  Sql.update_slot_occupied 1 sid
    (mk_db (slots db)
           (vehicles db ++
              [mk_vehicle
                 (Sql.next_rowid (seq_vehicles db) (map vehicle_id (vehicles db)))
                 owner vnum sid t None])
           (payments db) (seq_slots db)
           (Sql.next_rowid (seq_vehicles db) (map vehicle_id (vehicles db)))
           (seq_payments db)).

(** The store written by a successful [submit_exit]. *)
Definition exit_store (db : database) (vid sid : Z) (amt : Q) (t : timestamp)
    : database :=
  Sql.insert_payment vid amt t
    (Sql.update_slot_occupied 0 sid (Sql.update_exit_time t vid db)).

(** ** Concrete stores *)

(** A small run used as a concrete store: one slot, one vehicle parked at
    second 0 and leaving five minutes later. *)
Definition demo_ops : list op :=
  [ Update_slots (Some 1);
    Submit "Asha" "KA01AB1234" 0;
    Submit_exit "KA01AB1234" 300000000 ].

Definition demo_db : database := run_all demo_ops empty_db.

(** A lot with a single slot, taken by a vehicle that is still parked. *)
Definition full_db : database :=
  run_all [Update_slots (Some 1); Submit "Asha" "KA01AB1234" 0] empty_db.

(** Three slots, two of them taken by vehicles that are still parked. *)
Definition three_slots_db : database :=
  run_all [Update_slots (Some 3); Submit "a" "X" 1000000; Submit "b" "Y" 5000000]
          empty_db.

(** ** Further predicates *)

(** Every character of the text is whitespace (the empty text included). *)
Fixpoint blank (s : string) : bool :=
  match s with
  | EmptyString => true
  | String c s' => Str.isspace c && blank s'
  end.

(** First and last character of a text, if any. *)
Definition first_char (s : string) : option ascii :=
  match s with EmptyString => None | String c _ => Some c end.

Fixpoint last_char (s : string) : option ascii :=
  match s with
  | EmptyString => None
  | String c EmptyString => Some c
  | String _ s' => last_char s'
  end.

(** A text that is not empty and neither starts nor ends with whitespace. *)
Definition trimmed (s : string) : Prop :=
  (exists c, first_char s = Some c /\ Str.isspace c = false)
  /\ (exists c, last_char s = Some c /\ Str.isspace c = false).

(** The texts kept in [vehicles]: the vehicle number is never empty and has
    no whitespace at either end, and the owner name is stored stripped. *)
Definition texts_stripped (db : database) : Prop :=
  forall v, In v (vehicles db) ->
    trimmed (vehicle_number v) /\ Str.strip (owner_name v) = owner_name v.

(** The journal agrees with the ledger: each payment belongs to a closed
    session, carries its exit timestamp and a whole number of at least one
    minute, which is the fee of the stored stay when that is shorter than
    2^34 seconds; an active session has no payment and a closed one has
    exactly one. *)
Record audited (db : database) : Prop := mk_audited
  { payment_has_session :
      forall p, In p (payments db) ->
        exists v m, In v (vehicles db) /\ vehicle_id v = p_vehicle_id p
                  /\ exit_time v = Some (payment_time p)
                  /\ amount p = inject_Z m /\ 1 <= m
                  /\ (payment_time p - entry_time v < exact_stay_limit ->
                      m = spec_minutes (entry_time v) (payment_time p));
    active_unbilled :
      forall v, In v (vehicles db) -> exit_time v = None ->
        payments_of (vehicle_id v) db = [];
    closed_billed_once :
      forall v t, In v (vehicles db) -> exit_time v = Some t ->
        exists p, payments_of (vehicle_id v) db = [p] }.

(** The labels are Slot-1, Slot-2, ... up to the number of slots, in table
    order. *)
Definition numbered (db : database) : Prop :=
  labels db = map slot_name (range 1 (Sql.count_slots db + 1)).

(** ** The read-only windows *)

(** [ORDER BY]: rows are inserted one by one in front of the first row they
    may precede.  Rows with equal keys keep their table order, which is what
    SQLite does for these queries; SQL itself leaves that order open. *)
Fixpoint insert_by {A} (before : A -> A -> bool) (x : A) (l : list A) : list A :=
  match l with
  | [] => [x]
  | y :: l' => if before x y then x :: l else y :: insert_by before x l'
  end.

Definition order_by {A} (before : A -> A -> bool) (l : list A) : list A :=
  fold_right (insert_by before) [] l.

(** SQLite's text functions used by [slot_status_window]. *)
Module Sqlite.

(** [INSTR(X, Y)] for a one-character [Y]: position of its first
    occurrence, counted from 1, and 0 when there is none. *)
Fixpoint instr (s : string) (c : ascii) : Z :=
  match s with
  | EmptyString => 0
  | String a s' =>
      if Ascii.eqb a c then 1
      else match instr s' c with 0 => 0 | k => k + 1 end
  end.

Fixpoint drop (n : nat) (s : string) : string :=
  match n, s with
  | O, _ => s
  | S n', String _ s' => drop n' s'
  | S _, EmptyString => EmptyString
  end.

(** [SUBSTR(X, P)] for a position [P >= 1]: the text from the [P]-th
    character on. *)
Definition substr (s : string) (p : Z) : string := drop (Z.to_nat (p - 1)) s.

(** Characters skipped in front of a number by [CAST]. *)
Definition isspace (c : ascii) : bool :=
  let n := N_of_ascii c in ((9 <=? n) && (n <=? 13) || (n =? 32))%N.

Fixpoint skip_space (s : string) : string :=
  match s with
  | EmptyString => EmptyString
  | String c s' => if isspace c then skip_space s' else s
  end.

Definition digit (c : ascii) : option Z :=
  let n := Z.of_N (N_of_ascii c) in
  if (48 <=? n) && (n <=? 57) then Some (n - 48) else None.

(** Value of the longest prefix of decimal digits, continuing [acc]. *)
Fixpoint digits (s : string) (acc : Z) : Z :=
  match s with
  | EmptyString => acc
  | String c s' =>
      match digit c with
      | Some d => digits s' (10 * acc + d)
      | None => acc
      end
  end.

Definition clamp64 (z : Z) : Z :=
  Z.max (- 9223372036854775808) (Z.min 9223372036854775807 z).

(** [CAST(X AS INTEGER)] of a text: leading spaces are skipped, then the
    longest prefix that reads as a signed decimal integer is taken, 0 when
    there is none, and the result is kept within 64 bits. *)
Definition cast_integer (s : string) : Z :=
  match skip_space s with
  | String "-" s' => clamp64 (- digits s' 0)
  | String "+" s' => clamp64 (digits s' 0)
  | s' => clamp64 (digits s' 0)
  end.

End Sqlite.

(** A row of the main table; the slot label is [None] when the LEFT JOIN
    finds no slot, the exit time is [None] where the table shows '-'. *)
Definition main_row : Type :=
  (Z * string * option string * timestamp * option timestamp)%type.

Definition main_row_of (db : database) (v : vehicle) : main_row :=
  (vehicle_id v, vehicle_number v,
   option_map slot_number (Sql.joined db v), entry_time v, exit_time v).

(** [refresh_main_table]: the rows put into the main table,
    [ORDER BY v.vehicle_id DESC LIMIT 50], and the status line. *)
Definition refresh_main_table (db : database) : list main_row * (Z * Z * Z) :=
  (firstn 50
     (map (main_row_of db)
        (order_by (fun a b => vehicle_id b <=? vehicle_id a) (vehicles db))),
   update_status_label db).

(** A row of the "Currently Parked Vehicles" window. *)
Definition parked_row : Type := (string * string * string * timestamp)%type.

(** The inner JOIN of one vehicle row with [slots]. *)
Definition parked_rows_of (db : database) (v : vehicle) : list parked_row :=
  match Sql.joined db v with
  | Some s => [(owner_name v, vehicle_number v, slot_number s, entry_time v)]
  | None => []
  end.

(** [view_parked_window]: [WHERE v.exit_time IS NULL
    ORDER BY v.entry_time DESC].  The time texts all have the one fixed
    format, so their order as texts is the order of the seconds they
    denote. *)
Definition view_parked_window (db : database) : list parked_row :=
  order_by (fun a b => snd b <=? snd a)
    (flat_map (parked_rows_of db) (filter Sql.is_active (vehicles db))).

(** A row of the "Payments / Revenue" window. *)
Definition payment_row : Type := (string * Q * timestamp)%type.

Definition payment_rows_of (db : database) (p : payment) : list payment_row :=
  match find (fun v => vehicle_id v =? p_vehicle_id p) (vehicles db) with
  | Some v => [(vehicle_number v, amount p, payment_time p)]
  | None => []
  end.

(** [payments_window]: the rows, [ORDER BY p.payment_time DESC], and the
    revenue line. *)
Definition payments_window (db : database) : list payment_row * Q :=
  (order_by (fun a b => snd b <=? snd a)
     (flat_map (payment_rows_of db) (payments db)),
   payments_total db).

(** The sort key of [slot_status_window]:
    [CAST(SUBSTR(slot_number, INSTR(slot_number, '-') + 1) AS INTEGER)]. *)
Definition slot_order_key (s : slot) : Z :=
  Sqlite.cast_integer
    (Sqlite.substr (slot_number s) (Sqlite.instr (slot_number s) "-" + 1)).

(** [slot_status_window]: the rows with their status text and the three
    numbers of the summary line (total, occupied, available). *)
Definition slot_status_window (db : database)
    : list (string * string) * (Z * Z * Z) :=
  let rows :=
    map (fun s => (slot_number s, is_occupied s))
        (order_by (fun a b => slot_order_key a <=? slot_order_key b)
                  (slots db)) in
  let total := Z.of_nat (List.length rows) in
  let occupied :=
    Z.of_nat (List.length (filter (fun r => negb (snd r =? 0)) rows)) in
  let available := total - occupied in
  (map (fun r => (fst r, if negb (snd r =? 0) then "Occupied" else "Available"))
       rows,
   (total, occupied, available)).

(** Rows of [vehicles] lie in increasing order of their identifiers, and
    each of them names a slot that exists. *)
Record filed (db : database) : Prop := mk_filed
  { vehicle_ids_ascending :
      StronglySorted Z.lt (map vehicle_id (vehicles db));
    session_slot_exists :
      forall v, In v (vehicles db) ->
        exists s, In s (slots db) /\ slot_id s = v_slot_id v }.

(** ** The animated car *)

(** [move_car(x, direction)] draws the car at [x] and schedules the next
    call; the result is the pair of arguments of that call (while the canvas
    exists). *)
Definition move_car (x direction : Z) : Z * Z :=
  if direction =? 1 then
    if x <? 950 then (x + 4, direction) else (950, -1)
  else
    if 50 <? x then (x - 4, direction) else (50, 1).

(** The arguments of the call reached after [n] timer ticks. *)
Fixpoint move_car_after (n : nat) (s : Z * Z) : Z * Z :=
  match n with
  | O => s
  | S n' => move_car_after n' (move_car (fst s) (snd s))
  end.

(** The first call, [move_car()], uses the defaults [x=-50, direction=1]. *)
Definition move_car_start : Z * Z := (-50, 1).

(** The minutes billed by [submit_exit] for a session entered at the stored
    second [T0] when the clock reads [now]. *)
Definition billed_minutes (now : datetime) (T0 : timestamp) : Z :=
  Z.max 1 (elapsed_minutes now (strptime T0)).


(** * Proofs *)

(** ** Lists and rowids *)

Section ListFacts.

Context {A B : Type}.

Lemma NoDup_snoc (l : list A) (x : A) :
  NoDup l -> ~ In x l -> NoDup (l ++ [x]).
Proof.
  induction l as [|a l IH]; simpl; intros Hnd Hx.
  - constructor; [intros [] | constructor].
  - inversion_clear Hnd as [|? ? Ha Hl].
    constructor.
    + rewrite in_app_iff. simpl. intros [H|[H|[]]]; [tauto | subst; tauto].
    + apply IH; tauto.
Qed.

Lemma existsb_false_forall (f : A -> bool) (l : list A) :
  existsb f l = false <-> forall x, In x l -> f x = false.
Proof.
  induction l as [|a l IH]; simpl.
  - split; [intros _ x [] | reflexivity].
  - rewrite orb_false_iff, IH. split.
    + intros [Ha Hl] x [<-|Hx]; auto.
    + intros H; split; auto.
Qed.

Lemma find_none_iff (f : A -> bool) (l : list A) :
  find f l = None <-> forall x, In x l -> f x = false.
Proof.
  split; [apply find_none|].
  induction l as [|a l IH]; simpl; intros H; [reflexivity|].
  rewrite (H a (or_introl eq_refl)). apply IH. auto.
Qed.

(** A key-preserving rewrite of the rows leaves a key column as it was. *)
Lemma map_key_update (key : A -> B) (g : A -> A) (l : list A) :
  (forall x, key (g x) = key x) -> map key (map g l) = map key l.
Proof.
  intros Hk. rewrite map_map. apply map_ext. exact Hk.
Qed.

End ListFacts.

Lemma next_rowid_above (seq : Z) (ids : list Z) (x : Z) :
  In x ids -> x < Sql.next_rowid seq ids.
Proof.
  unfold Sql.next_rowid.
  induction ids as [|a ids IH]; simpl; [intros []|].
  intros [->|Hx]; [lia|]. specialize (IH Hx). lia.
Qed.

Lemma next_rowid_fresh (seq : Z) (ids : list Z) :
  ~ In (Sql.next_rowid seq ids) ids.
Proof.
  intros H. apply (next_rowid_above seq) in H. lia.
Qed.

Lemma eqb_column_false {A} (key : A -> string) (name : string) (l : list A) :
  existsb (fun r => String.eqb (key r) name) l = false <->
  ~ In name (map key l).
Proof.
  rewrite existsb_false_forall, in_map_iff. split.
  - intros H (r & <- & Hr). specialize (H r Hr).
    rewrite String.eqb_refl in H. discriminate.
  - intros H r Hr. apply String.eqb_neq. intros E. apply H. eauto.
Qed.

Lemma eqb_column_true {A} (key : A -> string) (name : string) (l : list A) :
  existsb (fun r => String.eqb (key r) name) l = true <->
  exists r, In r l /\ key r = name.
Proof.
  rewrite existsb_exists. split; intros (r & Hr & E); exists r; split; auto.
  - now apply String.eqb_eq.
  - now apply String.eqb_eq.
Qed.

(** ** The declared constraints hold in every store *)

Lemma insert_or_ignore_slot_schema name w :
  schema_ok w -> schema_ok (Sql.insert_or_ignore_slot name w).
Proof.
  intros [H1 H2 H3 H4 H5]. unfold Sql.insert_or_ignore_slot.
  destruct (existsb _ (slots w)) eqn:E; constructor; simpl; auto.
  - rewrite map_app. simpl. apply NoDup_snoc; auto. apply next_rowid_fresh.
  - rewrite map_app. simpl. apply NoDup_snoc; auto.
    now apply (eqb_column_false slot_number).
Qed.

Lemma fold_insert_slots_schema names w :
  schema_ok w ->
  schema_ok (fold_left (fun w i => Sql.insert_or_ignore_slot (slot_name i) w)
                       names w).
Proof.
  revert w. induction names as [|i names IH]; simpl; intros w H; auto.
  apply IH. now apply insert_or_ignore_slot_schema.
Qed.

Lemma insert_vehicle_schema owner vnum sid t w w' :
  schema_ok w -> Sql.insert_vehicle owner vnum sid t w = Sql.Ok w' ->
  schema_ok w'.
Proof.
  intros [H1 H2 H3 H4 H5]. unfold Sql.insert_vehicle.
  destruct (existsb _ (vehicles w)) eqn:E; [discriminate|].
  intros [= <-]. constructor; simpl; auto.
  - rewrite map_app. simpl. apply NoDup_snoc; auto. apply next_rowid_fresh.
  - rewrite map_app. simpl. apply NoDup_snoc; auto.
    now apply (eqb_column_false vehicle_number).
Qed.

Lemma update_slot_occupied_schema occ sid w :
  schema_ok w -> schema_ok (Sql.update_slot_occupied occ sid w).
Proof.
  intros [H1 H2 H3 H4 H5]. constructor; simpl; auto.
  - rewrite map_key_update; auto. intros s. now destruct (slot_id s =? sid).
  - rewrite map_key_update; auto. intros s. now destruct (slot_id s =? sid).
Qed.

Lemma update_exit_time_schema t vid w :
  schema_ok w -> schema_ok (Sql.update_exit_time t vid w).
Proof.
  intros [H1 H2 H3 H4 H5]. constructor; simpl; auto.
  - rewrite map_key_update; auto. intros v. now destruct (vehicle_id v =? vid).
  - rewrite map_key_update; auto. intros v. now destruct (vehicle_id v =? vid).
Qed.

Lemma insert_payment_schema vid amt t w :
  schema_ok w -> schema_ok (Sql.insert_payment vid amt t w).
Proof.
  intros [H1 H2 H3 H4 H5]. constructor; simpl; auto.
  rewrite map_app. simpl. apply NoDup_snoc; auto. apply next_rowid_fresh.
Qed.

Lemma update_slots_schema db total :
  schema_ok db -> schema_ok (snd (update_slots db total)).
Proof.
  intros H. unfold update_slots.
  destruct total as [total|]; simpl; auto.
  destruct (total <=? 0); simpl; auto.
  now apply fold_insert_slots_schema.
Qed.

Lemma submit_schema db o n now :
  schema_ok db -> schema_ok (snd (submit db o n now)).
Proof.
  intros H. unfold submit.
  destruct (negb _); simpl; auto.
  destruct (Sql.select_free_slot db) as [[sid sno]|]; simpl; auto.
  unfold try_execute. simpl.
  destruct (Sql.insert_vehicle _ _ _ _ db) as [w|] eqn:E; simpl; auto.
  apply update_slot_occupied_schema. eapply insert_vehicle_schema; eauto.
Qed.

Lemma submit_exit_schema db n now :
  schema_ok db -> schema_ok (snd (submit_exit db n now)).
Proof.
  intros H. unfold submit_exit.
  destruct (negb _); simpl; auto.
  destruct (Sql.select_active _ db) as [[[[vid t0] sid] sno]|]; simpl; auto.
  apply insert_payment_schema, update_slot_occupied_schema,
    update_exit_time_schema, H.
Qed.

Lemma run_schema db o : schema_ok db -> schema_ok (run o db).
Proof.
  destruct o; simpl;
    [apply update_slots_schema | apply submit_schema | apply submit_exit_schema].
Qed.

Lemma run_all_schema ops db : schema_ok db -> schema_ok (run_all ops db).
Proof.
  unfold run_all. revert db.
  induction ops as [|o ops IH]; simpl; intros db H; auto.
  apply IH, run_schema, H.
Qed.

Lemma empty_db_schema : schema_ok empty_db.
Proof. constructor; simpl; constructor. Qed.

Lemma reachable_schema db : reachable db -> schema_ok db.
Proof.
  induction 1; [apply empty_db_schema | now apply run_schema].
Qed.

Lemma reachable_run_all ops : reachable (run_all ops empty_db).
Proof.
  unfold run_all. generalize empty_db reach_init.
  induction ops as [|o ops IH]; simpl; intros db H; auto.
  apply IH. now constructor.
Qed.

(** ** Parking a vehicle *)

Lemma truthy_iff s : Str.truthy s = true <-> s <> "".
Proof. destruct s; simpl; split; congruence. Qed.

Lemma select_free_slot_none db :
  Sql.select_free_slot db = None <-> Sql.count_free db = 0.
Proof.
  unfold Sql.select_free_slot, Sql.count_free.
  induction (slots db) as [|s l IH]; simpl; [tauto|].
  destruct (is_occupied s =? 0); simpl; [split; [discriminate | lia]|].
  exact IH.
Qed.

Lemma select_free_slot_some db sid sno :
  Sql.select_free_slot db = Some (sid, sno) ->
  exists s, In s (slots db) /\ slot_id s = sid /\ slot_number s = sno
            /\ is_occupied s = 0.
Proof.
  unfold Sql.select_free_slot.
  destruct (find _ (slots db)) as [s|] eqn:E; [|discriminate].
  intros [= <- <-]. apply find_some in E as [Hin Hocc].
  exists s. repeat split; auto. now apply Z.eqb_eq.
Qed.

(** The three ways [submit] ends once a vehicle number was entered. *)
Lemma submit_full db o n now :
  Str.strip n <> "" -> Sql.select_free_slot db = None ->
  submit db o n now = (Park_Full, db).
Proof.
  intros Hn Hf. apply truthy_iff in Hn. unfold submit.
  rewrite Hn. simpl. now rewrite Hf.
Qed.

Lemma submit_known db o n now sid sno :
  Str.strip n <> "" -> Sql.select_free_slot db = Some (sid, sno) ->
  known db (Str.strip n) = true ->
  submit db o n now = (Park_Error, db).
Proof.
  intros Hn Hf Hk. apply truthy_iff in Hn. unfold submit.
  rewrite Hn. simpl. rewrite Hf.
  unfold try_execute, Sql.insert_vehicle. simpl.
  unfold known in Hk. now rewrite Hk.
Qed.

Lemma submit_fresh db o n now sid sno :
  Str.strip n <> "" -> Sql.select_free_slot db = Some (sid, sno) ->
  known db (Str.strip n) = false ->
  submit db o n now =
    (Parked sno,
     Sql.update_slot_occupied 1 sid
       (mk_db (slots db)
              (vehicles db ++
                 [mk_vehicle
                    (Sql.next_rowid (seq_vehicles db)
                       (map vehicle_id (vehicles db)))
                    (Str.strip o) (Str.strip n) sid (strftime now) None])
              (payments db) (seq_slots db)
              (Sql.next_rowid (seq_vehicles db) (map vehicle_id (vehicles db)))
              (seq_payments db))).
Proof.
  intros Hn Hf Hk. apply truthy_iff in Hn. unfold submit.
  rewrite Hn. simpl. rewrite Hf.
  unfold try_execute, Sql.insert_vehicle. simpl.
  unfold known in Hk. now rewrite Hk.
Qed.

Lemma has_active_known db vnum :
  has_active db vnum = true -> known db vnum = true.
Proof.
  unfold has_active, known. rewrite !existsb_exists.
  intros (v & Hv & E). exists v. split; auto.
  now apply andb_true_iff in E as [E _].
Qed.

Lemma update_slot_absent occ sid (l : list slot) :
  ~ In sid (map slot_id l) ->
  map (fun s => if slot_id s =? sid
                then mk_slot (slot_id s) (slot_number s) occ else s) l = l.
Proof.
  induction l as [|a l IH]; simpl; intros H; [reflexivity|].
  destruct (Z.eqb_spec (slot_id a) sid) as [E|E]; [tauto|].
  f_equal. apply IH. tauto.
Qed.

(** Occupying a free slot removes exactly one row from the free ones. *)
Lemma occupy_free_count (l : list slot) s :
  NoDup (map slot_id l) -> In s l -> is_occupied s = 0 ->
  S (List.length
       (filter (fun s => is_occupied s =? 0)
          (map (fun r => if slot_id r =? slot_id s
                         then mk_slot (slot_id r) (slot_number r) 1 else r) l)))
  = List.length (filter (fun s => is_occupied s =? 0) l).
Proof.
  induction l as [|a l IH]; simpl; intros Hnd Hin Hocc; [tauto|].
  inversion_clear Hnd as [|? ? Ha Hl].
  destruct Hin as [->|Hin].
  - rewrite Z.eqb_refl. simpl. rewrite Hocc. simpl.
    rewrite update_slot_absent by assumption. lia.
  - destruct (Z.eqb_spec (slot_id a) (slot_id s)) as [E|E].
    + exfalso. apply Ha. rewrite E. now apply in_map.
    + specialize (IH Hl Hin Hocc).
      destruct (is_occupied a =? 0); simpl; lia.
Qed.

(** C1, as stated, fails: after its only session is closed the vehicle has
    no active session and the lot has a free slot, yet parking it again is
    refused with the "already exists" error and nothing changes. *)
Lemma park_after_exit_is_refused :
  known demo_db "KA01AB1234" = true /\
  has_active demo_db "KA01AB1234" = false /\
  Sql.count_free demo_db = 1 /\
  submit demo_db "Asha" "KA01AB1234" 600000000 = (Park_Error, demo_db).
Proof. repeat split; vm_compute; reflexivity. Qed.

(** C1, amended: with a vehicle number entered and a free slot available,
    [submit] ends with the "already exists" error exactly when some row of
    [vehicles], active or closed, carries that number.  In particular a
    number with an active session is refused, and a number that was never
    recorded is parked. *)
Theorem submit_conflict_iff_known db o n now :
  Str.strip n <> "" -> 0 < Sql.count_free db ->
  (fst (submit db o n now) = Park_Error <-> known db (Str.strip n) = true)
  /\ (has_active db (Str.strip n) = true ->
      submit db o n now = (Park_Error, db))
  /\ (known db (Str.strip n) = false ->
      exists slot_no, fst (submit db o n now) = Parked slot_no).
Proof.
  intros Hn Hfree.
  destruct (Sql.select_free_slot db) as [[sid sno]|] eqn:Hf.
  2:{ apply select_free_slot_none in Hf. lia. }
  destruct (known db (Str.strip n)) eqn:Hk.
  - rewrite (submit_known db o n now sid sno Hn Hf Hk). simpl.
    repeat split; auto. discriminate.
  - rewrite (submit_fresh db o n now sid sno Hn Hf Hk). simpl.
    repeat split; try discriminate.
    + intros Ha. apply has_active_known in Ha. congruence.
    + eauto.
Qed.

Lemma submit_conflict_iff_known_witness :
  (fst (submit demo_db "Asha" " KA01AB1234 " 600000000) = Park_Error <->
   known demo_db (Str.strip " KA01AB1234 ") = true)
  /\ submit three_slots_db "a" "X" 9000000 = (Park_Error, three_slots_db)
  /\ (exists slot_no,
        fst (submit demo_db "Ravi" "DL05C0042" 600000000) = Parked slot_no).
Proof.
  split; [|split].
  - apply (submit_conflict_iff_known demo_db "Asha" " KA01AB1234 " 600000000).
    + vm_compute. discriminate.
    + vm_compute. reflexivity.
  - apply (submit_conflict_iff_known three_slots_db "a" "X" 9000000).
    + vm_compute. discriminate.
    + vm_compute. reflexivity.
    + vm_compute. reflexivity.
  - apply (submit_conflict_iff_known demo_db "Ravi" "DL05C0042" 600000000).
    + vm_compute. discriminate.
    + vm_compute. reflexivity.
    + vm_compute. reflexivity.
Defined.

(** C3: in a store that satisfies the declared keys, parking a vehicle
    number that is not yet recorded succeeds when a slot is free and leaves
    exactly one free slot fewer; with no free slot it ends with "Full" and
    the store is unchanged. *)
Theorem submit_free_count db o n now :
  schema_ok db -> Str.strip n <> "" ->
  (0 < Sql.count_free db -> known db (Str.strip n) = false ->
   exists slot_no,
     fst (submit db o n now) = Parked slot_no /\
     Sql.count_free (snd (submit db o n now)) = Sql.count_free db - 1)
  /\ (Sql.count_free db = 0 -> submit db o n now = (Park_Full, db)).
Proof.
  intros Hok Hn. split.
  - intros Hfree Hk.
    destruct (Sql.select_free_slot db) as [[sid sno]|] eqn:Hf.
    2:{ apply select_free_slot_none in Hf. lia. }
    rewrite (submit_fresh db o n now sid sno Hn Hf Hk). simpl.
    exists sno. split; [reflexivity|].
    apply select_free_slot_some in Hf as (s & Hin & <- & _ & Hocc).
    unfold Sql.count_free. simpl.
    rewrite <- (occupy_free_count (slots db) s (slot_id_key db Hok) Hin Hocc).
    lia.
  - intros Hz. apply submit_full; auto. now apply select_free_slot_none.
Qed.

Lemma submit_free_count_witness :
  (exists slot_no,
     fst (submit demo_db "" "MH12XY9" 7000000) = Parked slot_no /\
     Sql.count_free (snd (submit demo_db "" "MH12XY9" 7000000))
     = Sql.count_free demo_db - 1)
  /\ submit full_db "" "MH12XY9" 7000000 = (Park_Full, full_db).
Proof.
  split.
  - apply (submit_free_count demo_db "" "MH12XY9" 7000000).
    + apply reachable_schema. apply (reachable_run_all demo_ops).
    + vm_compute. discriminate.
    + vm_compute. reflexivity.
    + vm_compute. reflexivity.
  - apply (submit_free_count full_db "" "MH12XY9" 7000000).
    + apply reachable_schema. apply (reachable_run_all _).
    + vm_compute. discriminate.
    + vm_compute. reflexivity.
Defined.

(** C9: the free-slot query comes first.  With no free slot [submit] never
    ends with the "already exists" error, and for an entered vehicle number
    it ends with "Full" and an unchanged store, whatever [vehicles] holds,
    an active session of the same number included. *)
Theorem submit_full_before_conflict db o n now :
  Sql.count_free db = 0 ->
  fst (submit db o n now) <> Park_Error
  /\ (Str.strip n <> "" -> submit db o n now = (Park_Full, db)).
Proof.
  intros Hz. apply select_free_slot_none in Hz.
  assert (H : Str.strip n <> "" -> submit db o n now = (Park_Full, db))
    by (intros Hn; now apply submit_full).
  split; auto.
  destruct (Str.truthy (Str.strip n)) eqn:Ht.
  - apply truthy_iff in Ht. rewrite (H Ht). discriminate.
  - unfold submit. rewrite Ht. discriminate.
Qed.

Lemma submit_full_before_conflict_witness :
  has_active full_db (Str.strip "KA01AB1234") = true
  /\ fst (submit full_db "Asha" "KA01AB1234" 9000000) <> Park_Error
  /\ submit full_db "Asha" "KA01AB1234" 9000000 = (Park_Full, full_db).
Proof.
  split; [vm_compute; reflexivity|].
  destruct (submit_full_before_conflict full_db "Asha" "KA01AB1234" 9000000)
    as [H1 H2].
  - vm_compute. reflexivity.
  - split; [exact H1|]. apply H2. vm_compute. discriminate.
Defined.

(** C10: when the INSERT into [vehicles] raises the integrity error,
    [submit] reports it and the store is the one it started from; the slot
    that had been selected is still in the table with occupancy 0.
    Conversely every run that ends with that error leaves the store
    unchanged. *)
Theorem submit_conflict_atomic db o n now :
  (forall sid sno,
     Str.strip n <> "" ->
     Sql.select_free_slot db = Some (sid, sno) ->
     Sql.insert_vehicle (Str.strip o) (Str.strip n) sid (strftime now) db
       = Sql.IntegrityError ->
     submit db o n now = (Park_Error, db)
     /\ exists s, In s (slots (snd (submit db o n now)))
                  /\ slot_id s = sid /\ is_occupied s = 0)
  /\ (fst (submit db o n now) = Park_Error -> snd (submit db o n now) = db).
Proof.
  split.
  - intros sid sno Hn Hf Hins.
    assert (E : submit db o n now = (Park_Error, db)).
    { apply truthy_iff in Hn. unfold submit. rewrite Hn. simpl. rewrite Hf.
      unfold try_execute. simpl. now rewrite Hins. }
    split; [exact E|]. rewrite E. simpl.
    apply select_free_slot_some in Hf as (s & Hin & Hid & _ & Hocc). eauto.
  - unfold submit. destruct (negb _); simpl; [discriminate|].
    destruct (Sql.select_free_slot db) as [[sid sno]|]; simpl; [|discriminate].
    unfold try_execute. simpl.
    destruct (Sql.insert_vehicle _ _ _ _ db); simpl; [discriminate|reflexivity].
Qed.

Lemma submit_conflict_atomic_witness :
  submit demo_db "Asha" "KA01AB1234" 600000000 = (Park_Error, demo_db)
  /\ (exists s, In s (slots (snd (submit demo_db "Asha" "KA01AB1234" 600000000)))
                /\ slot_id s = 1 /\ is_occupied s = 0)
  /\ snd (submit demo_db "Asha" "KA01AB1234" 600000000) = demo_db.
Proof.
  destruct (submit_conflict_atomic demo_db "Asha" "KA01AB1234" 600000000)
    as [H1 H2].
  destruct (H1 1 "Slot-1") as [E Hs].
  - vm_compute. discriminate.
  - vm_compute. reflexivity.
  - vm_compute. reflexivity.
  - split; [exact E|]. split; [exact Hs|].
    apply H2. vm_compute. reflexivity.
Defined.

(** ** Leaving the lot *)

Lemma select_active_none db vnum :
  has_active db vnum = false -> Sql.select_active vnum db = None.
Proof.
  unfold has_active, Sql.select_active. intros H.
  rewrite existsb_false_forall in H.
  replace (find _ (vehicles db)) with (@None vehicle); [reflexivity|].
  symmetry. apply find_none_iff. intros v Hv. now rewrite (H v Hv).
Qed.

Lemma select_active_some db vnum vid t0 sid sno :
  Sql.select_active vnum db = Some (vid, t0, sid, sno) ->
  exists v s,
    In v (vehicles db) /\ vehicle_number v = vnum /\ exit_time v = None
    /\ vehicle_id v = vid /\ entry_time v = t0 /\ v_slot_id v = sid
    /\ In s (slots db) /\ slot_id s = sid /\ slot_number s = sno.
Proof.
  unfold Sql.select_active.
  destruct (find _ (vehicles db)) as [v|] eqn:E; [|discriminate].
  apply find_some in E as [Hin Hp].
  destruct (Sql.joined db v) as [s|] eqn:J; [|discriminate].
  intros [= <- <- <- <-].
  apply andb_true_iff in Hp as [Hp _].
  apply andb_true_iff in Hp as [Hnum Hact].
  apply String.eqb_eq in Hnum.
  unfold Sql.joined in J. apply find_some in J as [Hs Hid].
  apply Z.eqb_eq in Hid.
  exists v, s. repeat split; auto.
  unfold Sql.is_active in Hact. now destruct (exit_time v).
Qed.

Lemma submit_exit_found db n now vid t0 sid sno :
  Str.strip n <> "" ->
  Sql.select_active (Str.strip n) db = Some (vid, t0, sid, sno) ->
  submit_exit db n now =
    (let minutes := Z.max 1 (elapsed_minutes now (strptime t0)) in
     let amt := round2 (inject_Z minutes * rate_per_min) in
     (Payment (Str.strip n) sno minutes amt,
      exit_store db vid sid amt (strftime now))).
Proof.
  intros Hn Hsel. apply truthy_iff in Hn. unfold submit_exit.
  rewrite Hn. simpl. now rewrite Hsel.
Qed.

(** C7: for an entered vehicle number without an active session,
    [submit_exit] ends with "Not found" and the store, with all its session,
    slot and payment rows, is the one it started from. *)
Theorem submit_exit_not_found db n now :
  Str.strip n <> "" -> has_active db (Str.strip n) = false ->
  submit_exit db n now = (Not_found, db).
Proof.
  intros Hn Ha. apply truthy_iff in Hn. unfold submit_exit.
  rewrite Hn. simpl. now rewrite (select_active_none db _ Ha).
Qed.

Lemma submit_exit_not_found_witness :
  submit_exit demo_db "KA01AB1234" 900000000 = (Not_found, demo_db)
  /\ submit_exit demo_db "never-seen" 900000000 = (Not_found, demo_db).
Proof.
  split.
  - apply (submit_exit_not_found demo_db "KA01AB1234" 900000000).
    + vm_compute. discriminate.
    + vm_compute. reflexivity.
  - apply (submit_exit_not_found demo_db "never-seen" 900000000).
    + vm_compute. discriminate.
    + vm_compute. reflexivity.
Defined.

(** *** Billing *)

(** **** Double precision *)

Lemma rhe_bounds (s : Q) :
  (inject_Z (round_half_even s) - (1#2) <= s <= inject_Z (round_half_even s) + (1#2))%Q.
Proof.
  destruct s as [n d]. unfold round_half_even. cbn [Qnum Qden].
  assert (Hd := Z.div_mod n (Z.pos d) ltac:(lia)).
  assert (Hm := Z.mod_pos_bound n (Z.pos d) ltac:(lia)).
  set (f := n / Z.pos d) in *. set (r := n mod Z.pos d) in *.
  destruct (Z.ltb_spec (2 * r) (Z.pos d)); [|destruct (Z.ltb_spec (Z.pos d) (2 * r)); [|destruct (Z.even f)]];
    unfold Qle, Qplus, Qminus, Qopp, inject_Z; cbn [Qnum Qden Qplus Qopp]; split; nia.
Qed.

Lemma pow2_pos t : (0 < Double.pow2 t)%Q.
Proof. apply Qpower_0_lt. reflexivity. Qed.

Lemma pow2_add a b : (Double.pow2 (a + b) == Double.pow2 a * Double.pow2 b)%Q.
Proof. apply Qpower_plus. discriminate. Qed.

Lemma pow2_int t : 0 <= t -> (Double.pow2 t == inject_Z (2 ^ t))%Q.
Proof. intros H. unfold Double.pow2. now rewrite Zpower_Qpower. Qed.

Lemma pow2_le a b : a <= b -> (Double.pow2 a <= Double.pow2 b)%Q.
Proof. intros H. apply Qpower_le_compat_l; [exact H | discriminate]. Qed.

Lemma pow2_lt_inv a b : (Double.pow2 a < Double.pow2 b)%Q -> a < b.
Proof. intros H. apply (Qpower_lt_compat_l_inv 2); [exact H | reflexivity]. Qed.

Lemma pow2_succ a : (Double.pow2 (a + 1) == 2 * Double.pow2 a)%Q.
Proof. rewrite pow2_add. unfold Double.pow2 at 2. simpl. ring. Qed.

Lemma pow2_cancel t : (Double.pow2 t * Double.pow2 (- t) == 1)%Q.
Proof. rewrite <- pow2_add. now replace (t + - t) with 0 by lia. Qed.

Lemma ilog2_spec (q : Q) :
  (0 < q)%Q -> (Double.pow2 (Double.ilog2 q) <= q < Double.pow2 (Double.ilog2 q + 1))%Q.
Proof.
  intros Hq. destruct q as [n d].
  assert (Hn : 0 < n) by (unfold Qlt in Hq; simpl in Hq; lia).
  unfold Double.ilog2. cbn [Qnum Qden].
  set (a := Z.log2 n). set (b := Z.log2 (Z.pos d)).
  destruct (Z.log2_spec n Hn) as [Ha1 Ha2].
  destruct (Z.log2_spec (Z.pos d) ltac:(lia)) as [Hb1 Hb2].
  fold a in Ha1, Ha2. fold b in Hb1, Hb2.
  assert (Ha0 : 0 <= a) by apply Z.log2_nonneg.
  assert (Hb0 : 0 <= b) by apply Z.log2_nonneg.
  assert (HA := pow2_int a Ha0). assert (HB := pow2_int b Hb0).
  assert (HK : (Double.pow2 (a - b) * Double.pow2 b == Double.pow2 a)%Q)
    by (rewrite <- pow2_add; now replace (a - b + b) with a by lia).
  assert (HKp := pow2_pos (a - b)). assert (HBp := pow2_pos b).
  assert (HAp := pow2_pos a).
  assert (Hq' : (n # d == inject_Z n / inject_Z (Z.pos d))%Q) by apply Qmake_Qdiv.
  assert (HN1 : (Double.pow2 a <= inject_Z n)%Q) by (rewrite HA, <- Zle_Qle; exact Ha1).
  assert (HN2 : (inject_Z n < 2 * Double.pow2 a)%Q).
  { rewrite <- pow2_succ, pow2_int by lia. rewrite <- Zlt_Qlt.
    now replace (a + 1) with (Z.succ a) by lia. }
  assert (HD1 : (Double.pow2 b <= inject_Z (Z.pos d))%Q) by (rewrite HB, <- Zle_Qle; exact Hb1).
  assert (HD2 : (inject_Z (Z.pos d) < 2 * Double.pow2 b)%Q).
  { rewrite <- pow2_succ, pow2_int by lia. rewrite <- Zlt_Qlt.
    now replace (b + 1) with (Z.succ b) by lia. }
  assert (HqD : ((n # d) * inject_Z (Z.pos d) == inject_Z n)%Q).
  { rewrite Hq'. field. intros E. rewrite E in HD1. 
    apply (Qlt_irrefl 0). eapply Qlt_le_trans; [exact HBp|exact HD1]. }
  set (x := (n # d)) in *.
  set (N := inject_Z n) in *. set (D := inject_Z (Z.pos d)) in *.
  set (K := Double.pow2 (a - b)) in *. set (A := Double.pow2 a) in *. set (B := Double.pow2 b) in *.
  destruct (Qle_bool K x) eqn:E.
  - apply Qle_bool_iff in E. split; [exact E|].
    rewrite pow2_succ. fold K.
    apply Qnot_le_lt. intros Hc. nra.
  - assert (E' : (x < K)%Q).
    { apply Qnot_le_lt. intros Hc. apply Qle_bool_iff in Hc. congruence. }
    replace (a - b - 1 + 1) with (a - b) by lia. split; [|exact E'].
    assert (Hh : (Double.pow2 (a - b) == 2 * Double.pow2 (a - b - 1))%Q).
    { rewrite <- pow2_succ. now replace (a - b - 1 + 1) with (a - b) by lia. }
    fold K in Hh. 
    apply Qnot_lt_le. intros Hc. nra.
Qed.


Lemma int_lt_half (a b : Z) (s : Q) :
  (inject_Z a <= s)%Q -> (s <= inject_Z b + (1#2))%Q -> a <= b.
Proof.
  intros H1 H2.
  assert (H : (inject_Z a < inject_Z (b + 1))%Q)
    by (rewrite inject_Z_plus; change (inject_Z 1) with 1%Q; lra).
  rewrite <- Zlt_Qlt in H. lia.
Qed.

Lemma int_gt_half (a b : Z) (s : Q) :
  (s < inject_Z a - (1#2))%Q -> (inject_Z b - (1#2) <= s)%Q -> b <= a - 1.
Proof.
  intros H1 H2.
  assert (H : (inject_Z b < inject_Z a)%Q) by lra.
  rewrite <- Zlt_Qlt in H. lia.
Qed.

Lemma round_pos_lower (q : Q) (lo : Z) :
  Double.ilog2 q <= 52 -> (inject_Z lo <= q)%Q -> (inject_Z lo <= Double.round_pos q)%Q.
Proof.
  intros Hs Hlo. unfold Double.round_pos.
  pose proof (rhe_bounds (q * Double.pow2 (52 - Double.ilog2 q))) as [Hb1 Hb2].
  pose proof (pow2_pos (52 - Double.ilog2 q)) as Hp.
  pose proof (pow2_pos (Double.ilog2 q - 52)) as Hg.
  pose proof (pow2_cancel (52 - Double.ilog2 q)) as Hc.
  replace (- (52 - Double.ilog2 q)) with (Double.ilog2 q - 52) in Hc by lia.
  pose proof (pow2_int (52 - Double.ilog2 q) ltac:(lia)) as HT.
  remember (round_half_even (q * Double.pow2 (52 - Double.ilog2 q))) as m eqn:Em. clear Em.
  assert (Hm : lo * 2 ^ (52 - Double.ilog2 q) <= m).
  { apply (int_lt_half _ _ (q * Double.pow2 (52 - Double.ilog2 q))); [|exact Hb2].
    rewrite inject_Z_mult, <- HT. apply Qmult_le_compat_r; [exact Hlo | lra]. }
  rewrite Zle_Qle, inject_Z_mult, <- HT in Hm.
  assert (H1 : (inject_Z lo * Double.pow2 (52 - Double.ilog2 q) * Double.pow2 (Double.ilog2 q - 52)
                <= inject_Z m * Double.pow2 (Double.ilog2 q - 52))%Q)
    by (apply Qmult_le_compat_r; [exact Hm | lra]).
  assert (H2 : (inject_Z lo * Double.pow2 (52 - Double.ilog2 q) * Double.pow2 (Double.ilog2 q - 52)
                == inject_Z lo * (Double.pow2 (52 - Double.ilog2 q) * Double.pow2 (Double.ilog2 q - 52)))%Q)
    by ring.
  rewrite Hc in H2. lra.
Qed.

Lemma round_pos_upper (q : Q) (hi : Z) :
  Double.ilog2 q <= 52 ->
  (q + Double.pow2 (Double.ilog2 q - 52) * (1#2) < inject_Z hi)%Q ->
  (Double.round_pos q <= inject_Z hi - Double.pow2 (Double.ilog2 q - 52))%Q.
Proof.
  intros Hs Hhi. unfold Double.round_pos.
  pose proof (rhe_bounds (q * Double.pow2 (52 - Double.ilog2 q))) as [Hb1 Hb2].
  pose proof (pow2_pos (52 - Double.ilog2 q)) as Hp.
  pose proof (pow2_pos (Double.ilog2 q - 52)) as Hg.
  pose proof (pow2_cancel (52 - Double.ilog2 q)) as Hc.
  replace (- (52 - Double.ilog2 q)) with (Double.ilog2 q - 52) in Hc by lia.
  pose proof (pow2_int (52 - Double.ilog2 q) ltac:(lia)) as HT.
  remember (round_half_even (q * Double.pow2 (52 - Double.ilog2 q))) as m eqn:Em. clear Em.
  assert (Hm : m <= hi * 2 ^ (52 - Double.ilog2 q) - 1).
  { apply (int_gt_half _ _ (q * Double.pow2 (52 - Double.ilog2 q))); [|exact Hb1].
    rewrite inject_Z_mult, <- HT.
    assert (E : ((q + Double.pow2 (Double.ilog2 q - 52) * (1#2)) * Double.pow2 (52 - Double.ilog2 q)
                 == q * Double.pow2 (52 - Double.ilog2 q)
                    + (Double.pow2 (52 - Double.ilog2 q) * Double.pow2 (Double.ilog2 q - 52)) * (1#2))%Q)
      by ring.
    rewrite Hc in E.
    assert (E2 : ((q + Double.pow2 (Double.ilog2 q - 52) * (1#2)) * Double.pow2 (52 - Double.ilog2 q)
                  < inject_Z hi * Double.pow2 (52 - Double.ilog2 q))%Q)
      by (apply Qmult_lt_compat_r; assumption).
    lra. }
  rewrite Zle_Qle in Hm. unfold Z.sub in Hm.
  rewrite inject_Z_plus, inject_Z_mult, <- HT in Hm.
  change (inject_Z (-1)) with (-1)%Q in Hm.
  assert (H1 : (inject_Z m * Double.pow2 (Double.ilog2 q - 52)
                <= (inject_Z hi * Double.pow2 (52 - Double.ilog2 q) + -1)
                   * Double.pow2 (Double.ilog2 q - 52))%Q)
    by (apply Qmult_le_compat_r; [exact Hm | lra]).
  assert (H2 : ((inject_Z hi * Double.pow2 (52 - Double.ilog2 q) + -1) * Double.pow2 (Double.ilog2 q - 52)
                == inject_Z hi * (Double.pow2 (52 - Double.ilog2 q) * Double.pow2 (Double.ilog2 q - 52))
                   - Double.pow2 (Double.ilog2 q - 52))%Q)
    by ring.
  rewrite Hc in H2. lra.
Qed.

Lemma round_pos_range (q : Q) :
  (0 < q)%Q ->
  (Double.pow2 (Double.ilog2 q) <= Double.round_pos q <= Double.pow2 (Double.ilog2 q + 1))%Q.
Proof.
  intros Hq. destruct (ilog2_spec q Hq) as [H1 H2].
  unfold Double.round_pos. set (L := Double.ilog2 q) in *.
  pose proof (rhe_bounds (q * Double.pow2 (52 - L))) as [Hb1 Hb2].
  set (m := round_half_even (q * Double.pow2 (52 - L))) in *.
  pose proof (pow2_pos (52 - L)) as Hp. pose proof (pow2_pos (L - 52)) as Hg.
  assert (E52 : (Double.pow2 52 == Double.pow2 L * Double.pow2 (52 - L))%Q)
    by (rewrite <- pow2_add; now replace (L + (52 - L)) with 52 by lia).
  assert (E53 : (Double.pow2 53 == Double.pow2 (L + 1) * Double.pow2 (52 - L))%Q)
    by (rewrite <- pow2_add; now replace (L + 1 + (52 - L)) with 53 by lia).
  assert (EL : (Double.pow2 L == Double.pow2 52 * Double.pow2 (L - 52))%Q)
    by (rewrite <- pow2_add; now replace (52 + (L - 52)) with L by lia).
  assert (EL1 : (Double.pow2 (L + 1) == Double.pow2 53 * Double.pow2 (L - 52))%Q)
    by (rewrite <- pow2_add; now replace (53 + (L - 52)) with (L + 1) by lia).
  rewrite (pow2_int 52) in E52, EL by lia. rewrite (pow2_int 53) in E53, EL1 by lia.
  assert (S1 : (inject_Z (2 ^ 52) <= q * Double.pow2 (52 - L))%Q).
  { rewrite E52. apply Qmult_le_compat_r; [exact H1 | lra]. }
  assert (S2 : (q * Double.pow2 (52 - L) < inject_Z (2 ^ 53))%Q).
  { rewrite E53. apply Qmult_lt_compat_r; assumption. }
  assert (M1 : 2 ^ 52 <= m) by (apply (int_lt_half _ _ _ S1 Hb2)).
  assert (M2 : m <= 2 ^ 53).
  { apply (int_lt_half _ _ (inject_Z m)); lra. }
  rewrite Zle_Qle in M1, M2.
  rewrite EL, EL1. split; apply Qmult_le_compat_r; auto; lra.
Qed.

Lemma round_of_pos (q : Q) : (0 < q)%Q -> Double.round q = Double.round_pos q.
Proof.
  destruct q as [[|p|p] d]; unfold Qlt; simpl; intros H; try lia. reflexivity.
Qed.

Lemma round_nonpos (q : Q) : (q <= 0)%Q -> (Double.round q <= 0)%Q.
Proof.
  destruct q as [[|p|p] d]; unfold Double.round; cbn [Qnum]; intros H.
  - apply Qle_refl.
  - unfold Qle in H. simpl in H. lia.
  - assert (Hp : (0 < - (Z.neg p # d))%Q) by reflexivity.
    destruct (round_pos_range _ Hp) as [H1 _].
    pose proof (pow2_pos (Double.ilog2 (- (Z.neg p # d)))). lra.
Qed.

Lemma trunc_between (z : Q) (k : Z) :
  0 <= k -> (inject_Z k <= z)%Q -> (z < inject_Z (k + 1))%Q -> Double.trunc z = k.
Proof.
  destruct z as [n d]. unfold Qle, Qlt, Double.trunc. cbn [Qnum Qden inject_Z].
  intros Hk H1 H2.
  rewrite Z.quot_div_nonneg by nia.
  symmetry. apply (Z.div_unique n (Z.pos d) k (n - Z.pos d * k)); nia.
Qed.

Lemma trunc_nonpos (z : Q) : (z <= 0)%Q -> Double.trunc z <= 0.
Proof.
  destruct z as [n d]. unfold Qle, Double.trunc. cbn [Qnum Qden]. intros H.
  assert (Hn : n <= 0) by lia.
  rewrite <- (Z.opp_involutive n), Z.quot_opp_l by lia.
  assert (0 <= Z.quot (- n) (Z.pos d)) by (apply Z.quot_pos; lia). lia.
Qed.

(** Known doubles: 0.1, 1/3, the tie at 2^53 + 1 that goes to the even
    significand, -1.4, and the seconds of a stay that round up to the next
    whole second. *)
Example double_round_values :
  (Double.round (1 # 10) == 3602879701896397 # 36028797018963968)%Q
  /\ (Double.round (1 # 3) == 6004799503160661 # 18014398509481984)%Q
  /\ (Double.round (inject_Z 9007199254740993) == inject_Z 9007199254740992)%Q
  /\ (Double.round (-7 # 5) == -3152519739159347 # 2251799813685248)%Q
  /\ (Double.round (17179879079999999 # 1000000) == inject_Z 17179879080)%Q.
Proof. repeat split; vm_compute; reflexivity. Qed.

(** Below 2^34 seconds the two double-precision quotients lose nothing. *)
Lemma elapsed_minutes_exact (now entry_dt : Z) :
  0 <= now - entry_dt < 17179869184 * 1000000 ->
  elapsed_minutes now entry_dt = (now - entry_dt) / 60000000.
Proof.
  unfold elapsed_minutes. set (u := now - entry_dt). intros Hu.
  destruct (Z.eq_dec u 0) as [->|Hnz]; [reflexivity|].
  set (k := u / 60000000).
  assert (Hd := Z.div_mod u 60000000 ltac:(lia)).
  assert (Hm := Z.mod_pos_bound u 60000000 ltac:(lia)). fold k in Hd.
  assert (Hk0 : 0 <= k) by (apply Z.div_pos; lia).
  assert (Hk1 : (inject_Z (60 * k) == 60 * inject_Z k)%Q)
    by (rewrite inject_Z_mult; reflexivity).
  assert (Hk2 : (inject_Z (60 * (k + 1)) == 60 * inject_Z (k + 1))%Q)
    by (rewrite inject_Z_mult; reflexivity).
  assert (Hx : (0 < u # 1000000)%Q) by (unfold Qlt; simpl; lia).
  assert (Hx34 : (u # 1000000 < Double.pow2 34)%Q).
  { rewrite (pow2_int 34) by lia. unfold Qlt. cbn [Qnum Qden inject_Z]. lia. }
  assert (Hxl : (inject_Z (60 * k) <= u # 1000000)%Q).
  { unfold Qle. cbn [Qnum Qden inject_Z]. lia. }
  assert (Hxu : (u # 1000000 <= inject_Z (60 * (k + 1)) - (1 # 1000000))%Q).
  { unfold Qle, Qminus, Qplus, Qopp. cbn [Qnum Qden inject_Z]. lia. }
  remember (u # 1000000) as x eqn:Ex. clear Ex.
  clear Hd Hm. clearbody k. clear Hu Hnz. clearbody u.
  (* first quotient *)
  destruct (ilog2_spec x Hx) as [HL1 HL2].
  assert (HLx : Double.ilog2 x < 34)
    by (apply pow2_lt_inv; eapply Qle_lt_trans; eassumption).
  pose proof (round_pos_lower x (60 * k) ltac:(lia) Hxl) as Hy1.
  pose proof (round_pos_upper x (60 * (k + 1)) ltac:(lia)) as Hy2.
  destruct (round_pos_range x Hx) as [Hr1 Hr2].
  rewrite (round_of_pos x Hx).
  remember (Double.ilog2 x) as Lx eqn:ELx. clear ELx.
  assert (HG : (Double.pow2 (Lx - 52) <= 1 # 524288)%Q).
  { eapply Qle_trans; [apply (pow2_le _ (-19)); lia|].
    unfold Double.pow2. simpl. apply Qle_refl. }
  assert (E4 : (Double.pow2 Lx == Double.pow2 (Lx - 4) * 16)%Q).
  { replace Lx with (Lx - 4 + 4) at 1 by lia. rewrite pow2_add.
    unfold Double.pow2 at 2. simpl. reflexivity. }
  assert (E5 : (Double.pow2 (Lx - 52) == Double.pow2 (Lx - 57) * 32)%Q).
  { replace (Lx - 52) with (Lx - 57 + 5) by lia. rewrite pow2_add.
    unfold Double.pow2 at 2. simpl. reflexivity. }
  assert (E1 : (Double.pow2 (Lx + 1) == 2 * Double.pow2 Lx)%Q) by apply pow2_succ.
  pose proof (pow2_pos Lx) as HP. pose proof (pow2_pos (Lx - 4)) as HP4.
  pose proof (pow2_pos (Lx - 52)) as HG0.
  remember (Double.pow2 (Lx - 52)) as G eqn:EG. remember (Double.pow2 Lx) as PL eqn:EPL.
  remember (Double.pow2 (Lx + 1)) as PL1 eqn:EPL1.
  remember (Double.round_pos x) as y eqn:Ey. clear Ey.
  assert (Hy2' : (y <= inject_Z (60 * (k + 1)) - G)%Q) by (apply Hy2; lra).
  clear Hy2.
  (* second quotient *)
  assert (Eq : (y / 60 == y * (1 # 60))%Q) by reflexivity.
  remember (y / 60)%Q as q eqn:Eq'. clear Eq'.
  assert (Hq : (0 < q)%Q) by lra.
  destruct (ilog2_spec _ Hq) as [HQ1 HQ2].
  assert (HLq : Double.ilog2 q < Lx - 4).
  { apply pow2_lt_inv. remember (Double.pow2 (Lx - 4)) as P4.
    remember (Double.pow2 (Double.ilog2 q)) as PQ. lra. }
  rewrite (round_of_pos _ Hq).
  pose proof (round_pos_lower q k ltac:(lia)) as Hz1.
  pose proof (round_pos_upper q (k + 1) ltac:(lia)) as Hz2.
  assert (H57 : (Double.pow2 (Double.ilog2 q - 52) <= Double.pow2 (Lx - 57))%Q)
    by (apply pow2_le; lia).
  pose proof (pow2_pos (Double.ilog2 q - 52)) as HG'0.
  remember (Double.pow2 (Double.ilog2 q - 52)) as G' eqn:EG'.
  remember (Double.pow2 (Lx - 57)) as P57 eqn:E57.
  remember (Double.round_pos q) as z eqn:Ez. clear Ez.
  remember (Double.pow2 (Lx - 4)) as P4 eqn:EP4.
  apply trunc_between; auto.
  - apply Hz1. lra.
  - assert (Hz : (z <= inject_Z (k + 1) - G')%Q) by (apply Hz2; lra).
    lra.
Qed.

(** Before the entry time the elapsed minutes are not positive. *)
Lemma elapsed_minutes_nonpos (now entry_dt : Z) :
  now - entry_dt <= 0 -> elapsed_minutes now entry_dt <= 0.
Proof.
  intros H. unfold elapsed_minutes. apply trunc_nonpos, round_nonpos.
  assert (Hy : (Double.round ((now - entry_dt) # 1000000) <= 0)%Q).
  { apply round_nonpos. unfold Qle. simpl. lia. }
  assert (E : (Double.round ((now - entry_dt) # 1000000) / 60
               == Double.round ((now - entry_dt) # 1000000) * (1 # 60))%Q)
    by reflexivity.
  rewrite E. lra.
Qed.

(** Whole minutes between a stored entry second and the exit instant, for
    a stay shorter than 2^34 seconds: the two roundings lose nothing, and
    the microseconds of [now] never complete a minute, so the result is the
    floor of the difference of the two stored timestamps. *)
Lemma elapsed_minutes_floor now T0 :
  T0 <= strftime now -> strftime now - T0 < exact_stay_limit ->
  elapsed_minutes now (strptime T0) = (strftime now - T0) / 60.
Proof.
  unfold strptime, strftime, exact_stay_limit. intros H Hb.
  assert (Hm := Z.mod_pos_bound now 1000000 ltac:(lia)).
  assert (Hd := Z.div_mod now 1000000 ltac:(lia)).
  rewrite elapsed_minutes_exact by lia.
  change 60000000 with (1000000 * 60).
  rewrite <- Z.div_div by lia.
  f_equal.
  replace (now - T0 * 1000000) with (now + (- T0) * 1000000) by lia.
  rewrite Z.div_add by lia. lia.
Qed.

Lemma round2_whole (m : Z) : round2 (inject_Z m * 1) = inject_Z m.
Proof.
  unfold round2. cbn [Qmult inject_Z Qnum Qden].
  unfold round_half_even. cbn [Qnum Qden Pos.mul].
  rewrite Z.mod_1_r, Z.div_1_r. cbn [Z.mul Z.ltb Z.compare].
  transitivity (Qred (inject_Z m)).
  - apply Qred_complete. unfold Qeq, inject_Z. simpl. lia.
  - apply Qred_identity. simpl. apply Z.gcd_1_r.
Qed.

(** C2, as stated, fails: a vehicle parked at second 0 that leaves one
    microsecond before the end of its 17179879080th second is billed
    286331318 minutes, one more than [max 1 (floor ((T1 - T0) / 60))],
    because the seconds of the stay round up in double precision. *)
Lemma long_stay_billed_one_minute_more :
  Sql.select_active "KA01AB1234" full_db = Some (1, 0, 1, "Slot-1")
  /\ 0 <= strftime 17179879079999999
  /\ fst (submit_exit full_db "KA01AB1234" 17179879079999999)
     = Payment "KA01AB1234" "Slot-1" 286331318 (inject_Z 286331318)
  /\ spec_minutes 0 (strftime 17179879079999999) = 286331317.
Proof. repeat split; vm_compute; try reflexivity. discriminate. Qed.

(** C2, amended: when [submit_exit] closes the session of an entered
    vehicle number whose stored entry second is [T0], at an instant whose
    stored second [T1] is not before [T0] and less than 2^34 seconds after
    it, the billed minutes are [max 1 (floor ((T1 - T0) / 60))] and the
    amount is [round (minutes * 1.0, 2)], which is that whole number of
    minutes; the closed session row and the payment row carry exactly these
    values, and the amount depends on [T1 - T0] only. *)
Theorem submit_exit_billing db n now vid T0 sid sno :
  Str.strip n <> "" ->
  Sql.select_active (Str.strip n) db = Some (vid, T0, sid, sno) ->
  T0 <= strftime now ->
  strftime now - T0 < exact_stay_limit ->
  let T1 := strftime now in
  let minutes := spec_minutes T0 T1 in
  let db' := snd (submit_exit db n now) in
  fst (submit_exit db n now)
    = Payment (Str.strip n) sno minutes (spec_fee minutes)
  /\ spec_fee minutes = inject_Z minutes
  /\ (exists v, In v (vehicles db') /\ vehicle_id v = vid
                /\ entry_time v = T0 /\ exit_time v = Some T1)
  /\ (exists pid, In (mk_payment pid vid (spec_fee minutes) T1) (payments db'))
  /\ (forall T0' T1', T1' - T0' = T1 - T0 ->
        spec_fee (spec_minutes T0' T1') = spec_fee minutes).
Proof.
  intros Hn Hsel Hle Hlim T1 minutes db'. subst db'.
  rewrite (submit_exit_found db n now vid T0 sid sno Hn Hsel).
  rewrite (elapsed_minutes_floor now T0 Hle Hlim).
  fold T1. change (Z.max 1 ((T1 - T0) / 60)) with minutes.
  cbv zeta. unfold rate_per_min. fold (spec_fee minutes). simpl fst. simpl snd.
  split; [reflexivity|].
  split; [apply round2_whole|].
  apply select_active_some in Hsel
    as (v & s & Hv & _ & Hact & Hvid & Ht0 & _).
  split; [|split].
  - exists (mk_vehicle (vehicle_id v) (owner_name v) (vehicle_number v)
                       (v_slot_id v) (entry_time v) (Some T1)).
    simpl. repeat split; auto.
    apply in_map_iff. exists v. split; auto.
    rewrite Hvid, Z.eqb_refl. reflexivity.
  - eexists. simpl. apply in_or_app. right. left. reflexivity.
  - intros T0' T1' E. unfold minutes, spec_minutes. now rewrite E.
Qed.

(** A vehicle parked at second 0 that leaves 359.5 seconds later. *)
Lemma submit_exit_billing_witness :
  fst (submit_exit full_db "KA01AB1234" 359500000)
    = Payment "KA01AB1234" "Slot-1" 5 (spec_fee 5)
  /\ spec_fee 5 = inject_Z 5
  /\ (exists v, In v (vehicles (snd (submit_exit full_db "KA01AB1234" 359500000)))
                /\ vehicle_id v = 1 /\ entry_time v = 0
                /\ exit_time v = Some 359)
  /\ (exists pid, In (mk_payment pid 1 (spec_fee 5) 359)
                     (payments (snd (submit_exit full_db "KA01AB1234" 359500000))))
  /\ (forall T0' T1', T1' - T0' = 359 - 0 ->
        spec_fee (spec_minutes T0' T1') = spec_fee 5).
Proof.
  apply (submit_exit_billing full_db "KA01AB1234" 359500000 1 0 1 "Slot-1").
  - vm_compute. discriminate.
  - vm_compute. reflexivity.
  - vm_compute. discriminate.
  - vm_compute. reflexivity.
Defined.

(** A stay of under a minute is billed as one minute. *)
Example short_stay_billed_one_minute :
  fst (submit_exit full_db "KA01AB1234" 12000000)
  = Payment "KA01AB1234" "Slot-1" 1 1.
Proof. vm_compute. reflexivity. Qed.

(** ** Provisioning slots *)

Lemma insert_or_ignore_slot_present name w :
  In name (labels w) ->
  slots (Sql.insert_or_ignore_slot name w) = slots w.
Proof.
  intros H. unfold Sql.insert_or_ignore_slot.
  destruct (existsb _ (slots w)) eqn:E; [reflexivity|].
  apply (eqb_column_false slot_number) in E. contradiction.
Qed.

Lemma insert_or_ignore_slot_absent name w :
  ~ In name (labels w) ->
  slots (Sql.insert_or_ignore_slot name w)
  = (slots w ++ [mk_slot (Sql.next_rowid (seq_slots w) (map slot_id (slots w)))
                         name 0])%list.
Proof.
  intros H. unfold Sql.insert_or_ignore_slot.
  destruct (existsb _ (slots w)) eqn:E; [|reflexivity].
  apply (eqb_column_true slot_number) in E as (r & Hr & <-).
  exfalso. apply H. unfold labels. now apply in_map.
Qed.

Lemma insert_or_ignore_slot_frame name w :
  vehicles (Sql.insert_or_ignore_slot name w) = vehicles w
  /\ payments (Sql.insert_or_ignore_slot name w) = payments w.
Proof.
  unfold Sql.insert_or_ignore_slot. now destruct (existsb _ (slots w)).
Qed.

(** What the loop leaves: the old rows first and untouched, then one free row
    for each requested label that was missing. *)
Lemma fold_insert_slots_spec names w :
  let w' := fold_left (fun w i => Sql.insert_or_ignore_slot (slot_name i) w)
                      names w in
  vehicles w' = vehicles w /\ payments w' = payments w
  /\ (exists new,
        slots w' = (slots w ++ new)%list
        /\ forall s, In s new ->
             is_occupied s = 0
             /\ In (slot_number s) (map slot_name names)
             /\ ~ In (slot_number s) (labels w))
  /\ (forall i, In i names -> In (slot_name i) (labels w')).
Proof.
  revert w. induction names as [|i names IH]; intros w; cbn zeta.
  - simpl. repeat split; auto.
    + exists []. rewrite app_nil_r. split; [reflexivity | intros s []].
    + intros i [].
  - simpl fold_left.
    destruct (IH (Sql.insert_or_ignore_slot (slot_name i) w))
      as (Hv & Hp & (new & Hs & Hnew) & Hall).
    destruct (insert_or_ignore_slot_frame (slot_name i) w) as [Fv Fp].
    split; [congruence|]. split; [congruence|].
    assert (Hin_dec : In (slot_name i) (labels w) \/ ~ In (slot_name i) (labels w)).
    { destruct (in_dec string_dec (slot_name i) (labels w)); auto. }
    split.
    + destruct Hin_dec as [Hin|Hnin].
      * rewrite (insert_or_ignore_slot_present _ _ Hin) in Hs.
        exists new. split; [exact Hs|].
        intros s Hsn. destruct (Hnew s Hsn) as (Ho & Hn & Hl).
        repeat split; auto.
        -- simpl. now right.
        -- unfold labels in *.
           now rewrite (insert_or_ignore_slot_present _ _ Hin) in Hl.
      * rewrite (insert_or_ignore_slot_absent _ _ Hnin) in Hs.
        rewrite <- app_assoc in Hs. eexists. split; [exact Hs|].
        intros s [<-|Hsn]; simpl.
        -- repeat split; auto.
        -- destruct (Hnew s Hsn) as (Ho & Hn & Hl).
           repeat split; auto. intros Hc. apply Hl. unfold labels in *.
           rewrite (insert_or_ignore_slot_absent _ _ Hnin), map_app, in_app_iff.
           now left.
    + intros j [<-|Hj]; [|now apply Hall].
      unfold labels. rewrite Hs, map_app, in_app_iff. left.
      destruct Hin_dec as [Hin|Hnin].
      * now rewrite (insert_or_ignore_slot_present _ _ Hin).
      * rewrite (insert_or_ignore_slot_absent _ _ Hnin), map_app, in_app_iff.
        right. simpl. now left.
Qed.

Lemma fold_insert_slots_present names w :
  (forall i, In i names -> In (slot_name i) (labels w)) ->
  slots (fold_left (fun w i => Sql.insert_or_ignore_slot (slot_name i) w)
                   names w) = slots w.
Proof.
  revert w. induction names as [|i names IH]; intros w H; simpl; auto.
  assert (E : slots (Sql.insert_or_ignore_slot (slot_name i) w) = slots w)
    by (apply insert_or_ignore_slot_present, H; now left).
  rewrite IH; auto.
  intros j Hj. unfold labels. rewrite E. apply H. now right.
Qed.

Lemma in_range lo hi i : In i (range lo hi) <-> lo <= i < hi.
Proof.
  unfold range. rewrite in_map_iff. split.
  - intros (k & <- & Hk). apply in_seq in Hk. lia.
  - intros H. exists (Z.to_nat (i - lo)). split; [lia|]. apply in_seq. lia.
Qed.

Lemma update_slots_store db total :
  0 < total ->
  update_slots db (Some total)
  = (Success (Sql.count_slots (insert_slots total db)), insert_slots total db).
Proof.
  intros H. unfold update_slots.
  destruct (Z.leb_spec total 0); [lia|]. reflexivity.
Qed.

Lemma update_slots_frame db total :
  vehicles (snd (update_slots db total)) = vehicles db
  /\ payments (snd (update_slots db total)) = payments db
  /\ exists new, slots (snd (update_slots db total)) = (slots db ++ new)%list
                 /\ forall s, In s new -> is_occupied s = 0.
Proof.
  assert (Hid : vehicles db = vehicles db /\ payments db = payments db
                /\ exists new, slots db = (slots db ++ new)%list
                               /\ forall s, In s new -> is_occupied s = 0).
  { repeat split. exists []. rewrite app_nil_r. split; auto. intros s []. }
  unfold update_slots. destruct total as [total|]; [|exact Hid].
  destruct (total <=? 0); [exact Hid|]. simpl.
  destruct (fold_insert_slots_spec (range 1 (total + 1)) db)
    as (Hv & Hp & (new & Hs & Hnew) & _).
  repeat split; auto. exists new. split; auto.
  intros s Hsn. now destruct (Hnew s Hsn).
Qed.

(** Decimal rendering is injective, hence so are the slot labels. *)
Lemma of_int_inj i j : Str.of_int i = Str.of_int j -> i = j.
Proof.
  unfold Str.of_int. intros H.
  assert (Hn : forall z, Z.to_int z <> Decimal.Pos Decimal.Nil
                         /\ Z.to_int z <> Decimal.Neg Decimal.Nil).
  { intros [|p|p]; simpl; split; try discriminate;
      intros [= E]; now apply (Unsigned.to_uint_nonnil p). }
  assert (E : Some (Z.to_int i) = Some (Z.to_int j)).
  { rewrite <- (NilZero.isi (Z.to_int i)) by apply Hn.
    rewrite <- (NilZero.isi (Z.to_int j)) by apply Hn.
    now rewrite H. }
  injection E as E.
  rewrite <- (DecimalZ.of_to i), <- (DecimalZ.of_to j). now rewrite E.
Qed.

Lemma slot_name_inj i j : slot_name i = slot_name j -> i = j.
Proof.
  unfold slot_name. simpl. intros [= H]. now apply of_int_inj.
Qed.

Lemma range_NoDup lo hi : NoDup (range lo hi).
Proof.
  unfold range. apply Injective_map_NoDup; [|apply seq_NoDup].
  intros a b. lia.
Qed.

Lemma range_length lo hi : List.length (range lo hi) = Z.to_nat (hi - lo).
Proof. unfold range. now rewrite length_map, length_seq. Qed.

Lemma fold_insert_slots_labels_nodup names w :
  NoDup (labels w) ->
  NoDup (labels (fold_left
                   (fun w i => Sql.insert_or_ignore_slot (slot_name i) w)
                   names w)).
Proof.
  revert w. induction names as [|i names IH]; simpl; intros w H; auto.
  apply IH. unfold labels in *.
  destruct (in_dec string_dec (slot_name i) (map slot_number (slots w)))
    as [Hin|Hnin].
  - now rewrite (insert_or_ignore_slot_present _ _ Hin).
  - rewrite (insert_or_ignore_slot_absent _ _ Hnin), map_app. simpl.
    now apply NoDup_snoc.
Qed.

(** C4: [update_slots] with a positive total keeps every row that was in
    [slots] in place and unchanged (occupancy included) and appends one free
    row for each of the labels Slot-1 .. Slot-total that was missing, so the
    labels afterwards are exactly the old ones together with
    Slot-1 .. Slot-total, each label once if that held before.  Running it a
    second time with the same total changes no row, and on an empty table
    two runs leave exactly [total] slots. *)
Theorem update_slots_idempotent db total :
  0 < total ->
  let db1 := snd (update_slots db (Some total)) in
  let db2 := snd (update_slots db1 (Some total)) in
  (exists new,
      slots db1 = (slots db ++ new)%list
      /\ forall s, In s new ->
           is_occupied s = 0 /\ ~ In (slot_number s) (labels db)
           /\ exists i, 1 <= i <= total /\ slot_number s = slot_name i)
  /\ (forall name,
        In name (labels db1) <->
        In name (labels db) \/ exists i, 1 <= i <= total /\ name = slot_name i)
  /\ (NoDup (labels db) -> NoDup (labels db1))
  /\ slots db2 = slots db1
  /\ (slots db = [] -> Sql.count_slots db2 = total).
Proof.
  intros Hpos db1 db2. subst db2 db1.
  rewrite (update_slots_store db total Hpos). cbn [snd].
  rewrite (update_slots_store _ total Hpos). cbn [snd].
  unfold insert_slots.
  destruct (fold_insert_slots_spec (range 1 (total + 1)) db)
    as (_ & _ & (new & Hs & Hnew) & Hall).
  set (db1 := fold_left _ (range 1 (total + 1)) db) in *.
  assert (Hnames : forall name,
             In name (map slot_name (range 1 (total + 1))) <->
             exists i, 1 <= i <= total /\ name = slot_name i).
  { intros name. rewrite in_map_iff. split.
    - intros (i & <- & Hi). apply in_range in Hi. exists i. split; [lia|auto].
    - intros (i & Hi & ->). exists i. split; auto. apply in_range. lia. }
  assert (Hlab : forall name,
             In name (labels db1) <->
             In name (labels db) \/
             exists i, 1 <= i <= total /\ name = slot_name i).
  { intros name. unfold labels at 1. rewrite Hs, map_app, in_app_iff.
    split.
    - intros [H|H]; [now left|]. right. apply Hnames.
      apply in_map_iff in H as (s & <- & Hsn). now apply Hnew.
    - intros [H|(i & Hi & ->)]; [now left|].
      assert (Hin : In (slot_name i) (labels db1))
        by (apply Hall, in_range; lia).
      unfold labels in Hin. now rewrite Hs, map_app, in_app_iff in Hin. }
  assert (Hsame : slots (fold_left
                           (fun w i => Sql.insert_or_ignore_slot (slot_name i) w)
                           (range 1 (total + 1)) db1) = slots db1).
  { apply fold_insert_slots_present. intros i Hi. apply Hlab. right.
    apply in_range in Hi. exists i. split; [lia|reflexivity]. }
  split; [|split; [|split; [|split]]].
  - exists new. split; [exact Hs|]. intros s Hsn.
    destruct (Hnew s Hsn) as (Ho & Hn & Hl). repeat split; auto.
    apply Hnames in Hn as (i & Hi & E). eauto.
  - exact Hlab.
  - intros Hnd. now apply fold_insert_slots_labels_nodup.
  - exact Hsame.
  - intros Hempty. unfold Sql.count_slots. rewrite Hsame.
    assert (Hnd1 : NoDup (labels db1)).
    { apply fold_insert_slots_labels_nodup. unfold labels. rewrite Hempty.
      constructor. }
    assert (Hnd2 : NoDup (map slot_name (range 1 (total + 1)))).
    { apply Injective_map_NoDup; [|apply range_NoDup].
      intros a b. apply slot_name_inj. }
    assert (L1 : (List.length (labels db1)
                  <= List.length (map slot_name (range 1 (total + 1))))%nat).
    { apply NoDup_incl_length; auto. intros name Hn.
      apply Hlab in Hn as [Hn|Hn]; [|now apply Hnames].
      unfold labels in Hn. rewrite Hempty in Hn. destruct Hn. }
    assert (L2 : (List.length (map slot_name (range 1 (total + 1)))
                  <= List.length (labels db1))%nat).
    { apply NoDup_incl_length; auto. intros name Hn.
      apply Hlab. right. now apply Hnames. }
    unfold labels in L1, L2.
    rewrite !length_map in L1, L2. rewrite range_length in L1, L2. lia.
Qed.

Lemma update_slots_idempotent_witness :
  (let db1 := snd (update_slots three_slots_db (Some 5)) in
   NoDup (labels db1)
   /\ slots (snd (update_slots db1 (Some 5))) = slots db1)
  /\ Sql.count_slots
       (snd (update_slots (snd (update_slots empty_db (Some 3))) (Some 3))) = 3.
Proof.
  split.
  - destruct (update_slots_idempotent three_slots_db 5 eq_refl)
      as (_ & _ & Hnd & Hsame & _).
    split; [|exact Hsame]. apply Hnd.
    apply (slot_number_unique _ (reachable_schema _ (reachable_run_all _))).
  - destruct (update_slots_idempotent empty_db 3 eq_refl) as (_ & _ & _ & _ & H).
    apply H. reflexivity.
Defined.

Example provision_twice_from_empty :
  map slot_number
      (slots (run_all [Update_slots (Some 3); Update_slots (Some 3)] empty_db))
  = ["Slot-1"; "Slot-2"; "Slot-3"].
Proof. vm_compute. reflexivity. Qed.

(** ** What one operation does to the store *)

Lemma submit_store db o n now :
  snd (submit db o n now) = db
  \/ exists sid sno,
       Sql.select_free_slot db = Some (sid, sno)
       /\ known db (Str.strip n) = false
       /\ snd (submit db o n now)
          = park_store db (Str.strip o) (Str.strip n) sid (strftime now).
Proof.
  destruct (Str.truthy (Str.strip n)) eqn:Ht.
  2:{ left. unfold submit. now rewrite Ht. }
  apply truthy_iff in Ht.
  destruct (Sql.select_free_slot db) as [[sid sno]|] eqn:Hf.
  2:{ left. now rewrite submit_full. }
  destruct (known db (Str.strip n)) eqn:Hk.
  - left. now rewrite (submit_known db o n now sid sno).
  - right. exists sid, sno. repeat split; auto.
    now rewrite (submit_fresh db o n now sid sno).
Qed.

Lemma submit_exit_store db n now :
  snd (submit_exit db n now) = db
  \/ exists vid t0 sid sno minutes,
       Sql.select_active (Str.strip n) db = Some (vid, t0, sid, sno)
       /\ snd (submit_exit db n now)
          = exit_store db vid sid (round2 (inject_Z minutes * rate_per_min))
                       (strftime now).
Proof.
  destruct (Str.truthy (Str.strip n)) eqn:Ht.
  2:{ left. unfold submit_exit. now rewrite Ht. }
  apply truthy_iff in Ht.
  destruct (Sql.select_active (Str.strip n) db) as [[[[vid t0] sid] sno]|] eqn:Hs.
  - right. exists vid, t0, sid, sno.
    rewrite (submit_exit_found db n now vid t0 sid sno Ht Hs).
    eexists. split; reflexivity.
  - left. unfold submit_exit. apply truthy_iff in Ht. rewrite Ht. simpl.
    now rewrite Hs.
Qed.

Lemma key_determines_row {A} (key : A -> Z) (l : list A) a b :
  NoDup (map key l) -> In a l -> In b l -> key a = key b -> a = b.
Proof.
  induction l as [|x l IH]; simpl; intros Hnd Ha Hb E; [tauto|].
  inversion_clear Hnd as [|? ? Hx Hl].
  destruct Ha as [->|Ha], Hb as [->|Hb]; auto.
  - exfalso. apply Hx. rewrite E. now apply in_map.
  - exfalso. apply Hx. rewrite <- E. now apply in_map.
Qed.

Lemma filter_snoc_false {A} (f : A -> bool) l x :
  f x = false -> filter f (l ++ [x]) = filter f l.
Proof.
  intros H. rewrite filter_app. simpl. rewrite H. apply app_nil_r.
Qed.

(** ** Closed sessions *)

Lemma run_keeps_closed db o v t :
  schema_ok db -> In v (vehicles db) -> exit_time v = Some t ->
  In v (vehicles (run o db))
  /\ payments_of (vehicle_id v) (run o db) = payments_of (vehicle_id v) db.
Proof.
  intros Hok Hv Hx. unfold payments_of. destruct o as [total|o n now|n now]; simpl.
  - destruct (update_slots_frame db total) as (-> & -> & _). auto.
  - destruct (submit_store db o n now) as [->|(sid & sno & _ & _ & ->)]; auto.
    simpl. split; auto. apply in_or_app. now left.
  - destruct (submit_exit_store db n now)
      as [->|(vid & t0 & sid & sno & amt & Hs & ->)]; auto.
    apply select_active_some in Hs
      as (v0 & s0 & Hv0 & _ & Hact & Hvid & _).
    assert (Hne : vehicle_id v <> vid).
    { intros E. rewrite <- Hvid in E.
      pose proof (key_determines_row vehicle_id _ v v0
                    (vehicle_id_key db Hok) Hv Hv0 E) as ->.
      congruence. }
    simpl. split.
    + apply in_map_iff. exists v. split; auto.
      destruct (Z.eqb_spec (vehicle_id v) vid); [contradiction|reflexivity].
    + apply filter_snoc_false. simpl. apply Z.eqb_neq. auto.
Qed.

(** C8: in a store that satisfies the declared keys, a session row with a
    non-null exit timestamp is left as it is by every sequence of
    operations: the row stays in [vehicles] with the same exit timestamp, it
    remains the only row with its identifier, and the payments recorded for
    it stay the same rows. *)
Theorem closed_session_frozen db ops v t :
  schema_ok db -> In v (vehicles db) -> exit_time v = Some t ->
  let db' := run_all ops db in
  In v (vehicles db')
  /\ (forall v', In v' (vehicles db') -> vehicle_id v' = vehicle_id v -> v' = v)
  /\ payments_of (vehicle_id v) db' = payments_of (vehicle_id v) db.
Proof.
  intros Hok Hv Hx db'. subst db'.
  assert (H : In v (vehicles (run_all ops db))
              /\ payments_of (vehicle_id v) (run_all ops db)
                 = payments_of (vehicle_id v) db).
  { unfold run_all. revert db Hok Hv.
    induction ops as [|o ops IH]; simpl; intros db Hok Hv; auto.
    destruct (run_keeps_closed db o v t Hok Hv Hx) as [Hv' Hp'].
    destruct (IH (run o db) (run_schema db o Hok) Hv') as [H1 H2].
    split; auto. congruence. }
  destruct H as [H1 H2]. repeat split; auto.
  intros v' Hv' E.
  apply (key_determines_row vehicle_id (vehicles (run_all ops db))); auto.
  apply vehicle_id_key, run_all_schema, Hok.
Qed.

Lemma closed_session_frozen_witness :
  let v := mk_vehicle 1 "Asha" "KA01AB1234" 1 0 (Some 300) in
  let db' := run_all [Submit_exit "KA01AB1234" 400000000;
                      Submit "Ravi" "KA01AB1234" 500000000;
                      Submit "Ravi" "DL05" 600000000;
                      Update_slots (Some 2);
                      Submit_exit "DL05" 900000000] demo_db in
  In v (vehicles db')
  /\ (forall v', In v' (vehicles db') -> vehicle_id v' = vehicle_id v -> v' = v)
  /\ payments_of (vehicle_id v) db' = payments_of (vehicle_id v) demo_db.
Proof.
  apply (closed_session_frozen demo_db _
           (mk_vehicle 1 "Asha" "KA01AB1234" 1 0 (Some 300)) 300).
  - apply reachable_schema, (reachable_run_all demo_ops).
  - vm_compute. left. reflexivity.
  - reflexivity.
Defined.

(** ** The relationship invariants *)

Lemma slot_after_update occ sid (l : list slot) s :
  In s l ->
  exists s', In s' (map (fun r => if slot_id r =? sid
                                  then mk_slot (slot_id r) (slot_number r) occ
                                  else r) l)
             /\ slot_id s' = slot_id s
             /\ is_occupied s' = if slot_id s =? sid then occ else is_occupied s.
Proof.
  intros Hs. eexists. split; [apply in_map_iff; exists s; split; eauto|].
  destruct (slot_id s =? sid); simpl; auto.
Qed.

Lemma empty_db_consistent : consistent empty_db.
Proof. constructor; simpl; intros; contradiction. Qed.

Lemma update_slots_consistent db total :
  consistent db -> consistent (snd (update_slots db total)).
Proof.
  intros [C1 C2 C3].
  destruct (update_slots_frame db total) as (Hv & Hp & new & Hs & _).
  constructor; rewrite ?Hv, ?Hp; auto.
  intros v Hin Hact. destruct (C1 v Hin Hact) as (s & Hsin & Hid & Hocc).
  exists s. rewrite Hs, in_app_iff. auto.
Qed.

Lemma park_store_consistent db owner vnum sid sno t :
  schema_ok db -> consistent db ->
  Sql.select_free_slot db = Some (sid, sno) ->
  consistent (park_store db owner vnum sid t).
Proof.
  intros Hok [C1 C2 C3] Hf.
  apply select_free_slot_some in Hf as (s0 & Hs0 & Hid0 & _ & Hocc0).
  set (vnew := mk_vehicle
                 (Sql.next_rowid (seq_vehicles db) (map vehicle_id (vehicles db)))
                 owner vnum sid t None).
  assert (Hold : forall v, In v (vehicles db) -> exit_time v = None ->
                           v_slot_id v <> sid).
  { intros v Hv Hact E. destruct (C1 v Hv Hact) as (s & Hs & Hid & Hocc).
    pose proof (slot_id_key db Hok) as Hkey.
    assert (Es : s = s0)
      by (apply (key_determines_row slot_id (slots db)); auto; congruence).
    subst s. congruence. }
  constructor; unfold park_store; simpl; fold vnew.
  - intros v Hv Hact. apply in_app_iff in Hv as [Hv|[<-|[]]].
    + destruct (C1 v Hv Hact) as (s & Hs & Hid & Hocc).
      destruct (slot_after_update 1 sid _ s Hs) as (s' & Hs' & Hid' & Hocc').
      exists s'. repeat split; auto; [congruence|].
      rewrite Hocc'. now destruct (slot_id s =? sid).
    + destruct (slot_after_update 1 sid _ s0 Hs0) as (s' & Hs' & Hid' & Hocc').
      exists s'. repeat split; auto; [simpl; congruence|].
      rewrite Hocc', Hid0, Z.eqb_refl. reflexivity.
  - intros v1 v2 H1 H2 A1 A2 E.
    apply in_app_iff in H1 as [H1|[<-|[]]];
      apply in_app_iff in H2 as [H2|[<-|[]]]; auto.
    + exfalso. apply (Hold v1 H1 A1). exact E.
    + exfalso. apply (Hold v2 H2 A2). symmetry. exact E.
  - intros v tx Hv Hx. apply in_app_iff in Hv as [Hv|[<-|[]]].
    + eauto.
    + discriminate.
Qed.

Lemma exit_rows vid t (l : list vehicle) v' :
  In v' (map (fun v => if vehicle_id v =? vid
                       then mk_vehicle (vehicle_id v) (owner_name v)
                              (vehicle_number v) (v_slot_id v) (entry_time v)
                              (Some t)
                       else v) l) ->
  (In v' l /\ vehicle_id v' <> vid)
  \/ (vehicle_id v' = vid /\ exit_time v' = Some t).
Proof.
  intros H. apply in_map_iff in H as (v & <- & Hv).
  destruct (Z.eqb_spec (vehicle_id v) vid); simpl; auto.
Qed.

Lemma exit_store_consistent db vnum vid t0 sid sno amt t :
  schema_ok db -> consistent db ->
  Sql.select_active vnum db = Some (vid, t0, sid, sno) ->
  consistent (exit_store db vid sid amt t).
Proof.
  intros Hok [C1 C2 C3] Hsel.
  apply select_active_some in Hsel
    as (v0 & s0 & Hv0 & _ & Hact0 & Hvid0 & _ & Hsid0 & _).
  assert (Hother : forall v, In v (vehicles db) -> exit_time v = None ->
                             vehicle_id v <> vid -> v_slot_id v <> sid).
  { intros v Hv Hact Hne E. apply Hne.
    rewrite (C2 v v0 Hv Hv0 Hact Hact0); congruence. }
  constructor; unfold exit_store; simpl.
  - intros v Hv Hact.
    apply exit_rows in Hv as [[Hv Hne]|[_ Hx]]; [|congruence].
    destruct (C1 v Hv Hact) as (s & Hs & Hid & Hocc).
    destruct (slot_after_update 0 sid _ s Hs) as (s' & Hs' & Hid' & Hocc').
    exists s'. repeat split; auto; [congruence|].
    rewrite Hocc'. destruct (Z.eqb_spec (slot_id s) sid) as [E|E]; auto.
    exfalso. apply (Hother v Hv Hact Hne). congruence.
  - intros v1 v2 H1 H2 A1 A2 E.
    apply exit_rows in H1 as [[H1 _]|[_ Hx]]; [|congruence].
    apply exit_rows in H2 as [[H2 _]|[_ Hx]]; [|congruence].
    auto.
  - intros v tx Hv Hx.
    apply exit_rows in Hv as [[Hv Hne]|[Hid _]].
    + destruct (C3 v tx Hv Hx) as (p & Hp & E).
      exists p. split; auto. apply in_or_app. now left.
    + eexists. split; [apply in_or_app; right; left; reflexivity|].
      simpl. congruence.
Qed.

Lemma run_consistent db o :
  schema_ok db -> consistent db -> consistent (run o db).
Proof.
  intros Hok Hc. destruct o as [total|o n now|n now]; simpl.
  - now apply update_slots_consistent.
  - destruct (submit_store db o n now) as [->|(sid & sno & Hf & _ & ->)]; auto.
    eapply park_store_consistent; eauto.
  - destruct (submit_exit_store db n now)
      as [->|(vid & t0 & sid & sno & amt & Hs & ->)]; auto.
    eapply exit_store_consistent; eauto.
Qed.

(** C5: in every store reached from the empty one by [update_slots],
    [submit] and [submit_exit], each session with a null exit timestamp has
    its slot in [slots] marked occupied, no two such sessions share a slot,
    and each session with a non-null exit timestamp has a row in
    [payments]. *)
Theorem reachable_consistent db : reachable db -> consistent db.
Proof.
  induction 1 as [|db o Hr IH].
  - apply empty_db_consistent.
  - apply run_consistent; auto. now apply reachable_schema.
Qed.

Lemma reachable_consistent_witness :
  consistent
    (run_all [Update_slots (Some 2); Submit "a" "X" 1000000;
              Submit "b" "Y" 5000000; Submit_exit "X" 200000000;
              Submit "c" "Z" 300000000] empty_db).
Proof.
  apply (reachable_consistent _ (reachable_run_all _)).
Defined.

(** ** Revenue *)


(** Rounding to two decimals leaves a whole amount as it is. *)
Lemma round2_of_whole (q : Q) (k : Z) : q == inject_Z k -> round2 q = inject_Z k.
Proof.
  intros E. destruct q as [n d]. unfold Qeq in E. simpl in E.
  rewrite Z.mul_1_r in E. subst n.
  unfold round2, round_half_even. cbn [Qmult Qnum Qden].
  rewrite Pos.mul_1_r.
  replace (k * Z.pos d * 100) with (k * 100 * Z.pos d) by lia.
  rewrite Z.mod_mul, Z.div_mul by lia. cbn [Z.mul Z.ltb Z.compare].
  transitivity (Qred (inject_Z k)).
  - apply Qred_complete. unfold Qeq, inject_Z. simpl. lia.
  - apply Qred_identity. simpl. apply Z.gcd_1_r.
Qed.





Lemma run_whole_amounts db o : whole_amounts db -> whole_amounts (run o db).
Proof.
  unfold whole_amounts. intros H. destruct o as [total|o n now|n now]; simpl.
  - destruct (update_slots_frame db total) as (_ & -> & _). exact H.
  - destruct (submit_store db o n now) as [->|(sid & sno & _ & _ & ->)]; auto.
  - destruct (submit_exit_store db n now)
      as [->|(vid & t0 & sid & sno & m & _ & ->)]; auto.
    simpl. intros p Hp. apply in_app_iff in Hp as [Hp|[<-|[]]]; auto.
    exists m. simpl. unfold rate_per_min. apply round2_whole.
Qed.

Lemma reachable_whole_amounts db : reachable db -> whole_amounts db.
Proof.
  induction 1; [intros p []|]. now apply run_whole_amounts.
Qed.

Lemma sum_whole (l : list payment) (a : Q) (k : Z) :
  a == inject_Z k ->
  (forall p, In p l -> exists m, amount p = inject_Z m) ->
  exists k', fold_left Qplus (map amount l) a == inject_Z k'.
Proof.
  revert a k. induction l as [|p l IH]; simpl; intros a k Ha H; eauto.
  destruct (H p (or_introl eq_refl)) as (m & Em).
  apply (IH _ (k + m)); auto.
  rewrite Em, Ha, inject_Z_plus. reflexivity.
Qed.

(** On the stores the application produces the rounding is idle and the
    revenue is the exact sum of the recorded amounts. *)
Lemma reachable_total_exact db :
  reachable db ->
  payments_total db == fold_left Qplus (map amount (payments db)) 0%Q.
Proof.
  intros Hr. apply reachable_whole_amounts in Hr.
  destruct (sum_whole (payments db) 0%Q 0 (Qeq_refl _) Hr) as (k & Hk).
  unfold payments_total, Sql.sum_amount.
  destruct (payments db) as [|p l] eqn:E; [reflexivity|].
  cbn [Sql.coalesce0].
  destruct (Qeq_bool _ 0) eqn:B.
  - apply Qeq_bool_eq in B. rewrite B. reflexivity.
  - rewrite (round2_of_whole _ k Hk). symmetry. exact Hk.
Qed.

(** ** The scenario of the specification *)

(** Two slots are provisioned and "KA01AB1234" is parked: one slot is taken
    and one is available.  Parking the same number again is refused.  The
    exit five minutes later is billed 5 and both slots are available. *)
Example scenario :
  let db1 := run_all [Update_slots (Some 2); Submit "" "KA01AB1234" 0] empty_db in
  let db2 := snd (submit_exit db1 "KA01AB1234" 300000000) in
  update_status_label db1 = (2, 1, 1)
  /\ submit db1 "" "KA01AB1234" 60000000 = (Park_Error, db1)
  /\ fst (submit_exit db1 "KA01AB1234" 300000000)
     = Payment "KA01AB1234" "Slot-1" 5 5
  /\ update_status_label db2 = (2, 2, 0).
Proof. repeat split; vm_compute; reflexivity. Qed.

(** * Further properties of the handlers *)

(** ** Both invariants along every run *)

Lemma reachable_invariants db : reachable db -> schema_ok db /\ consistent db.
Proof.
  induction 1 as [|db o Hr [Hok Hc]].
  - split; [apply empty_db_schema | apply empty_db_consistent].
  - split; [now apply run_schema | now apply run_consistent].
Qed.

(** ** The status line *)

Lemma release_free_count (l : list slot) s :
  NoDup (map slot_id l) -> In s l -> is_occupied s <> 0 ->
  List.length
    (filter (fun s => is_occupied s =? 0)
       (map (fun r => if slot_id r =? slot_id s
                      then mk_slot (slot_id r) (slot_number r) 0 else r) l))
  = S (List.length (filter (fun s => is_occupied s =? 0) l)).
Proof.
  induction l as [|a l IH]; simpl; intros Hnd Hin Hocc; [tauto|].
  inversion_clear Hnd as [|? ? Ha Hl].
  destruct Hin as [->|Hin].
  - rewrite Z.eqb_refl. simpl.
    destruct (Z.eqb_spec (is_occupied s) 0); [contradiction|].
    now rewrite update_slot_absent.
  - destruct (Z.eqb_spec (slot_id a) (slot_id s)) as [E|E].
    + exfalso. apply Ha. rewrite E. now apply in_map.
    + specialize (IH Hl Hin Hocc).
      destruct (is_occupied a =? 0); simpl; lia.
Qed.

Lemma update_exit_absent t vid (l : list vehicle) :
  ~ In vid (map vehicle_id l) ->
  map (fun v => if vehicle_id v =? vid
                then mk_vehicle (vehicle_id v) (owner_name v) (vehicle_number v)
                       (v_slot_id v) (entry_time v) (Some t)
                else v) l = l.
Proof.
  induction l as [|a l IH]; simpl; intros H; [reflexivity|].
  destruct (Z.eqb_spec (vehicle_id a) vid) as [E|E]; [tauto|].
  f_equal. apply IH. tauto.
Qed.

Lemma close_parked_count t (l : list vehicle) v :
  NoDup (map vehicle_id l) -> In v l -> exit_time v = None ->
  S (List.length
       (filter Sql.is_active
          (map (fun r => if vehicle_id r =? vehicle_id v
                         then mk_vehicle (vehicle_id r) (owner_name r)
                                (vehicle_number r) (v_slot_id r) (entry_time r)
                                (Some t)
                         else r) l)))
  = List.length (filter Sql.is_active l).
Proof.
  induction l as [|a l IH]; simpl; intros Hnd Hin Hact; [tauto|].
  inversion_clear Hnd as [|? ? Ha Hl].
  destruct Hin as [->|Hin].
  - assert (Hv : Sql.is_active v = true)
      by (unfold Sql.is_active; now rewrite Hact).
    rewrite Z.eqb_refl, Hv. simpl. now rewrite update_exit_absent.
  - destruct (Z.eqb_spec (vehicle_id a) (vehicle_id v)) as [E|E].
    + exfalso. apply Ha. rewrite E. now apply in_map.
    + specialize (IH Hl Hin Hact).
      destruct (Sql.is_active a); simpl; lia.
Qed.

(** The three counters after a successful [submit]. *)
Lemma park_store_counts db owner vnum sid sno t :
  schema_ok db -> Sql.select_free_slot db = Some (sid, sno) ->
  let db' := park_store db owner vnum sid t in
  Sql.count_slots db' = Sql.count_slots db
  /\ Sql.count_free db' = Sql.count_free db - 1
  /\ Sql.count_parked db' = Sql.count_parked db + 1.
Proof.
  intros Hok Hf. cbv zeta.
  apply select_free_slot_some in Hf as (s & Hin & <- & _ & Hocc).
  unfold Sql.count_slots, Sql.count_free, Sql.count_parked, park_store. simpl.
  rewrite length_map.
  rewrite <- (occupy_free_count (slots db) s (slot_id_key db Hok) Hin Hocc).
  rewrite filter_app, length_app.
  cbn [filter Sql.is_active exit_time List.length]. lia.
Qed.

(** The three counters after a successful [submit_exit]. *)
Lemma exit_store_counts db vnum vid t0 sid sno amt t :
  schema_ok db -> consistent db ->
  Sql.select_active vnum db = Some (vid, t0, sid, sno) ->
  let db' := exit_store db vid sid amt t in
  Sql.count_slots db' = Sql.count_slots db
  /\ Sql.count_free db' = Sql.count_free db + 1
  /\ Sql.count_parked db' = Sql.count_parked db - 1.
Proof.
  intros Hok Hc Hsel. cbv zeta.
  apply select_active_some in Hsel
    as (v & s0 & Hv & _ & Hact & <- & _ & <- & _).
  destruct (active_slot_occupied db Hc v Hv Hact) as (s & Hs & Hid & Hocc).
  unfold Sql.count_slots, Sql.count_free, Sql.count_parked, exit_store. simpl.
  rewrite length_map. rewrite <- Hid.
  rewrite (release_free_count (slots db) s (slot_id_key db Hok) Hs)
    by (rewrite Hocc; discriminate).
  rewrite <- (close_parked_count t (vehicles db) v (vehicle_id_key db Hok) Hv Hact).
  lia.
Qed.

Lemma update_slots_counts db total :
  let db' := snd (update_slots db total) in
  Sql.count_slots db' - Sql.count_free db'
  = Sql.count_slots db - Sql.count_free db
  /\ Sql.count_parked db' = Sql.count_parked db
  /\ Sql.count_slots db <= Sql.count_slots db'.
Proof.
  cbv zeta. destruct (update_slots_frame db total) as (Hv & _ & new & Hs & Hnew).
  unfold Sql.count_slots, Sql.count_free, Sql.count_parked.
  rewrite Hv, Hs, filter_app, !length_app.
  assert (E : filter (fun s => is_occupied s =? 0) new = new).
  { clear Hs. induction new as [|a new IH]; simpl; [reflexivity|].
    rewrite (Hnew a (or_introl eq_refl)). simpl. f_equal.
    apply IH. intros s Hs. apply Hnew. now right. }
  rewrite E. lia.
Qed.

Lemma reachable_counts db :
  reachable db ->
  Sql.count_slots db = Sql.count_free db + Sql.count_parked db.
Proof.
  induction 1 as [|db o Hr IH]; [reflexivity|].
  destruct (reachable_invariants db Hr) as [Hok Hc].
  destruct o as [total|o n now|n now]; simpl.
  - destruct (update_slots_counts db total) as (H1 & H2 & _). lia.
  - destruct (submit_store db o n now) as [->|(sid & sno & Hf & _ & ->)]; auto.
    destruct (park_store_counts db (Str.strip o) (Str.strip n) sid sno
                (strftime now) Hok Hf) as (H1 & H2 & H3). lia.
  - destruct (submit_exit_store db n now)
      as [->|(vid & t0 & sid & sno & m & Hs & ->)]; auto.
    destruct (exit_store_counts db _ vid t0 sid sno
                (round2 (inject_Z m * rate_per_min)) (strftime now) Hok Hc Hs)
      as (H1 & H2 & H3). lia.
Qed.

(** In every store reached from the empty one the three numbers shown by
    [update_status_label] add up: total slots = available + currently
    parked, none of them negative. *)
Theorem status_line_adds_up db total free parked :
  reachable db -> update_status_label db = (total, free, parked) ->
  total = free + parked /\ 0 <= free <= total /\ 0 <= parked <= total.
Proof.
  intros Hr E. pose proof (reachable_counts db Hr) as Hc.
  unfold update_status_label in E. injection E as <- <- <-.
  unfold Sql.count_slots, Sql.count_free, Sql.count_parked in *. lia.
Qed.

Lemma status_line_adds_up_witness :
  3 = 1 + 2 /\ 0 <= 1 <= 3 /\ 0 <= 2 <= 3.
Proof.
  apply (status_line_adds_up three_slots_db 3 1 2).
  - apply (reachable_run_all _).
  - vm_compute. reflexivity.
Defined.

(** ** Entry texts *)

Lemma lstrip_first s :
  Str.lstrip s = "" \/
  exists c, first_char (Str.lstrip s) = Some c /\ Str.isspace c = false.
Proof.
  induction s as [|c s IH]; simpl; auto.
  destruct (Str.isspace c) eqn:E; auto. right. exists c. simpl. auto.
Qed.

Lemma lstrip_empty_iff s : Str.lstrip s = "" <-> blank s = true.
Proof.
  induction s as [|c s IH]; simpl; [tauto|].
  destruct (Str.isspace c); simpl; [exact IH|]. split; discriminate.
Qed.

Lemma rstrip_empty_iff s : Str.rstrip s = "" <-> blank s = true.
Proof.
  induction s as [|c s IH]; simpl; [tauto|].
  destruct (Str.rstrip s) eqn:R.
  - destruct (Str.isspace c); simpl; [tauto|]. split; discriminate.
  - split; [discriminate|]. intros H. apply andb_true_iff in H as [_ H].
    apply IH in H. discriminate.
Qed.

Lemma rstrip_first s c :
  first_char s = Some c -> Str.isspace c = false ->
  first_char (Str.rstrip s) = Some c.
Proof.
  destruct s as [|a s]; simpl; [discriminate|]. intros [= ->] Hc.
  destruct (Str.rstrip s); [now rewrite Hc|reflexivity].
Qed.

Lemma rstrip_last s :
  Str.rstrip s = "" \/
  exists c, last_char (Str.rstrip s) = Some c /\ Str.isspace c = false.
Proof.
  induction s as [|a s IH]; simpl; auto.
  destruct (Str.rstrip s) as [|b r] eqn:R.
  - destruct (Str.isspace a) eqn:E; auto. right. exists a. auto.
  - right. destruct IH as [IH|(c & Hl & Hc)]; [discriminate|].
    exists c. split; auto.
Qed.

Lemma blank_lstrip s : blank (Str.lstrip s) = true -> blank s = true.
Proof.
  induction s as [|c s IH]; simpl; auto.
  destruct (Str.isspace c) eqn:E; simpl; auto. now rewrite E.
Qed.

(** [strip] yields the empty text exactly on blank entries, and otherwise a
    text that neither starts nor ends with whitespace. *)
Lemma strip_empty_iff s : Str.strip s = "" <-> blank s = true.
Proof.
  unfold Str.strip. rewrite rstrip_empty_iff. split.
  - apply blank_lstrip.
  - intros H. apply lstrip_empty_iff in H. now rewrite H.
Qed.

Lemma strip_trimmed s : Str.strip s <> "" -> trimmed (Str.strip s).
Proof.
  unfold Str.strip. intros H. split.
  - destruct (lstrip_first s) as [E|(c & Hf & Hc)].
    + rewrite E in H. simpl in H. contradiction.
    + exists c. split; auto. now apply rstrip_first.
  - destruct (rstrip_last (Str.lstrip s)) as [E|Hl]; [contradiction|exact Hl].
Qed.

Lemma lstrip_fixed s c :
  first_char s = Some c -> Str.isspace c = false -> Str.lstrip s = s.
Proof.
  destruct s as [|a s]; simpl; [discriminate|]. intros [= ->] Hc.
  now rewrite Hc.
Qed.

Lemma rstrip_fixed s c :
  last_char s = Some c -> Str.isspace c = false -> Str.rstrip s = s.
Proof.
  induction s as [|a s IH]; simpl; [discriminate|].
  destruct s as [|b s].
  - intros [= ->] Hc. simpl. now rewrite Hc.
  - intros Hl Hc. rewrite (IH Hl Hc). reflexivity.
Qed.

Lemma trimmed_strip s : trimmed s -> Str.strip s = s /\ s <> "".
Proof.
  intros [(c & Hf & Hc) (d & Hl & Hd)]. split.
  - unfold Str.strip. rewrite (lstrip_fixed s c Hf Hc).
    apply (rstrip_fixed s d Hl Hd).
  - intros ->. discriminate.
Qed.

(** An entry that is empty or consists of whitespace only is refused with
    the "Input" warning by [submit] and by [submit_exit], before the store
    is opened; no other entry gets that answer. *)
Theorem blank_entry_refused db o n now :
  (fst (submit db o n now) = Park_Input <-> blank n = true)
  /\ (fst (submit_exit db n now) = Exit_Input <-> blank n = true)
  /\ (blank n = true ->
      submit db o n now = (Park_Input, db)
      /\ submit_exit db n now = (Exit_Input, db)).
Proof.
  rewrite <- !strip_empty_iff.
  unfold submit, submit_exit.
  destruct (Str.strip n) as [|c s] eqn:E; simpl.
  - repeat split; auto.
  - repeat split; try discriminate.
    + destruct (Sql.select_free_slot db) as [[sid sno]|]; [|discriminate].
      unfold try_execute. simpl.
      destruct (Sql.insert_vehicle _ _ _ _ db); discriminate.
    + destruct (Sql.select_active _ db) as [[[[vid t0] sid] sno]|]; discriminate.
Qed.

Lemma blank_entry_refused_witness :
  submit demo_db "Asha" "   " 1000000 = (Park_Input, demo_db)
  /\ submit_exit demo_db "   " 1000000 = (Exit_Input, demo_db).
Proof.
  apply (blank_entry_refused demo_db "Asha" "   " 1000000). reflexivity.
Defined.

Lemma strip_idempotent s : Str.strip (Str.strip s) = Str.strip s.
Proof.
  destruct (string_dec (Str.strip s) "") as [E|E].
  - rewrite E. reflexivity.
  - now apply trimmed_strip, strip_trimmed.
Qed.

(** Whitespace around an entry is ignored: [submit] and [submit_exit] give
    the same answer and the same store for an entry and for its stripped
    form. *)
Theorem entry_padding_ignored db o n now :
  submit db o n now = submit db (Str.strip o) (Str.strip n) now
  /\ submit_exit db n now = submit_exit db (Str.strip n) now.
Proof.
  unfold submit, submit_exit. now rewrite !strip_idempotent.
Qed.

Lemma submit_parked_store db o n now :
  snd (submit db o n now) = db
  \/ exists sid sno,
       Str.strip n <> ""
       /\ Sql.select_free_slot db = Some (sid, sno)
       /\ known db (Str.strip n) = false
       /\ submit db o n now
          = (Parked sno,
             park_store db (Str.strip o) (Str.strip n) sid (strftime now)).
Proof.
  destruct (Str.truthy (Str.strip n)) eqn:Ht.
  2:{ left. unfold submit. now rewrite Ht. }
  apply truthy_iff in Ht.
  destruct (Sql.select_free_slot db) as [[sid sno]|] eqn:Hf.
  2:{ left. now rewrite submit_full. }
  destruct (known db (Str.strip n)) eqn:Hk.
  - left. now rewrite (submit_known db o n now sid sno).
  - right. exists sid, sno. repeat split; auto.
    now rewrite (submit_fresh db o n now sid sno).
Qed.

Lemma run_texts_stripped db o : texts_stripped db -> texts_stripped (run o db).
Proof.
  unfold texts_stripped. intros H. destruct o as [total|o n now|n now]; simpl.
  - destruct (update_slots_frame db total) as (-> & _). exact H.
  - destruct (submit_parked_store db o n now)
      as [->|(sid & sno & Hn & _ & _ & ->)]; auto.
    simpl. intros v Hv. apply in_app_iff in Hv as [Hv|[<-|[]]]; auto.
    simpl. split; [now apply strip_trimmed | apply strip_idempotent].
  - destruct (submit_exit_store db n now)
      as [->|(vid & t0 & sid & sno & m & _ & ->)]; auto.
    simpl. intros v Hv. apply in_map_iff in Hv as (v0 & <- & Hv0).
    destruct (vehicle_id v0 =? vid); simpl; auto.
Qed.

Lemma reachable_texts db : reachable db -> texts_stripped db.
Proof.
  induction 1; [intros v []|]. now apply run_texts_stripped.
Qed.

(** In every store reached from the empty one, each stored vehicle number
    is non-empty, not blank, and unchanged by [strip], that is, free of
    whitespace at both ends; each owner name is stored stripped as well. *)
Theorem stored_texts_stripped db v :
  reachable db -> In v (vehicles db) ->
  vehicle_number v <> ""
  /\ blank (vehicle_number v) = false
  /\ Str.strip (vehicle_number v) = vehicle_number v
  /\ Str.strip (owner_name v) = owner_name v.
Proof.
  intros Hr Hv. destruct (reachable_texts db Hr v Hv) as [Ht Ho].
  destruct (trimmed_strip _ Ht) as [Hs Hne].
  repeat split; auto.
  destruct (blank (vehicle_number v)) eqn:B; auto.
  apply strip_empty_iff in B. congruence.
Qed.

Lemma stored_texts_stripped_witness :
  "KA01 AB" <> ""
  /\ blank "KA01 AB" = false
  /\ Str.strip "KA01 AB" = "KA01 AB"
  /\ Str.strip "Asha" = "Asha".
Proof.
  apply (stored_texts_stripped
           (run_all [Update_slots (Some 2); Submit "  Asha " " KA01 AB " 0]
                    empty_db)
           (mk_vehicle 1 "Asha" "KA01 AB" 1 0 None)).
  - apply (reachable_run_all _).
  - vm_compute. left. reflexivity.
Defined.

Example padded_entry_is_stored_stripped :
  map (fun v => (owner_name v, vehicle_number v))
      (vehicles
         (run_all [Update_slots (Some 2); Submit "  Asha " " KA01 AB " 0]
                  empty_db))
  = [("Asha", "KA01 AB")].
Proof. vm_compute. reflexivity. Qed.

(** ** Leaving, in stores the application produces *)

Lemma unique_column_row {A B} (key : A -> B) (l : list A) a b :
  NoDup (map key l) -> In a l -> In b l -> key a = key b -> a = b.
Proof.
  induction l as [|x l IH]; simpl; intros Hnd Ha Hb E; [tauto|].
  inversion_clear Hnd as [|? ? Hx Hl].
  destruct Ha as [->|Ha], Hb as [->|Hb]; auto.
  - exfalso. apply Hx. rewrite E. now apply in_map.
  - exfalso. apply Hx. rewrite <- E. now apply in_map.
Qed.

Lemma has_active_row db vnum :
  has_active db vnum = true <->
  exists v, In v (vehicles db) /\ vehicle_number v = vnum /\ exit_time v = None.
Proof.
  unfold has_active. rewrite existsb_exists. split.
  - intros (v & Hv & E). apply andb_true_iff in E as [En Ea].
    exists v. repeat split; auto; [now apply String.eqb_eq|].
    unfold Sql.is_active in Ea. now destruct (exit_time v).
  - intros (v & Hv & En & Ea). exists v. split; auto.
    apply andb_true_iff. split; [now apply String.eqb_eq|].
    unfold Sql.is_active. now rewrite Ea.
Qed.

(** With the relationship invariants the join of an active session never
    comes back empty, so the query of [submit_exit] finds it. *)
Lemma select_active_found db vnum :
  consistent db -> has_active db vnum = true ->
  exists vid t0 sid sno, Sql.select_active vnum db = Some (vid, t0, sid, sno).
Proof.
  intros Hc Ha. apply has_active_row in Ha as (v & Hv & En & Ea).
  destruct (active_slot_occupied db Hc v Hv Ea) as (s & Hs & Hid & _).
  unfold Sql.select_active.
  destruct (find _ (vehicles db)) as [v'|] eqn:F.
  - apply find_some in F as [_ Hp].
    apply andb_true_iff in Hp as [_ Hj].
    destruct (Sql.joined db v') as [s'|]; [eauto|discriminate].
  - exfalso. apply find_none with (x := v) in F; auto.
    apply String.eqb_eq in En. rewrite En in F.
    unfold Sql.is_active in F. rewrite Ea in F. simpl in F.
    destruct (Sql.joined db v) eqn:J; [discriminate|].
    unfold Sql.joined in J. apply find_none with (x := s) in J; auto.
    apply Z.eqb_neq in J. contradiction.
Qed.

Lemma billed_minutes_pos now T0 : 1 <= billed_minutes now T0.
Proof. unfold billed_minutes. lia. Qed.

(** For a stay shorter than 2^34 seconds the billed minutes are the
    specification's minutes of the two stored timestamps, a clock that went
    backwards included. *)
Lemma billed_minutes_stored now T0 :
  strftime now - T0 < exact_stay_limit ->
  billed_minutes now T0 = spec_minutes T0 (strftime now).
Proof.
  intros Hlim. unfold billed_minutes.
  destruct (Z.le_gt_cases T0 (strftime now)) as [H|H].
  - now rewrite elapsed_minutes_floor.
  - assert (Hq : elapsed_minutes now (strptime T0) <= 0).
    { apply elapsed_minutes_nonpos. unfold strptime, strftime in *.
      assert (Hd := Z.div_mod now 1000000 ltac:(lia)).
      assert (Hm := Z.mod_pos_bound now 1000000 ltac:(lia)). lia. }
    unfold spec_minutes.
    assert (Hf : (strftime now - T0) / 60 < 0)
      by (apply Z.div_lt_upper_bound; lia).
    lia.
Qed.

Lemma submit_exit_cases db n now :
  (snd (submit_exit db n now) = db
   /\ forall vnum sno m a, fst (submit_exit db n now) <> Payment vnum sno m a)
  \/ exists vid t0 sid sno,
       Str.strip n <> ""
       /\ Sql.select_active (Str.strip n) db = Some (vid, t0, sid, sno)
       /\ submit_exit db n now
          = (Payment (Str.strip n) sno (billed_minutes now t0)
               (inject_Z (billed_minutes now t0)),
             exit_store db vid sid
               (inject_Z (billed_minutes now t0)) (strftime now)).
Proof.
  destruct (Str.truthy (Str.strip n)) eqn:Ht.
  2:{ left. unfold submit_exit. rewrite Ht. simpl. split; [auto|discriminate]. }
  apply truthy_iff in Ht.
  destruct (Sql.select_active (Str.strip n) db) as [[[[vid t0] sid] sno]|] eqn:Hs.
  - right. exists vid, t0, sid, sno. repeat split; auto.
    rewrite (submit_exit_found db n now vid t0 sid sno Ht Hs). cbv zeta.
    fold (billed_minutes now t0). unfold rate_per_min.
    now rewrite round2_whole.
  - left. unfold submit_exit. apply truthy_iff in Ht. rewrite Ht. simpl.
    rewrite Hs. simpl. split; [auto|discriminate].
Qed.

(** In a store the application produces, [submit_exit] for a number with an
    active session always succeeds: it bills at least one minute, a whole
    amount equal to the minutes; one more slot is free, one vehicle fewer is
    parked, the number has no active session any more, and one payment row
    was added. *)
Theorem exit_of_parked_vehicle db n now :
  reachable db -> has_active db (Str.strip n) = true ->
  let db' := snd (submit_exit db n now) in
  exists slot_no minutes,
    fst (submit_exit db n now)
      = Payment (Str.strip n) slot_no minutes (inject_Z minutes)
    /\ 1 <= minutes
    /\ Sql.count_free db' = Sql.count_free db + 1
    /\ Sql.count_parked db' = Sql.count_parked db - 1
    /\ has_active db' (Str.strip n) = false
    /\ List.length (payments db') = S (List.length (payments db)).
Proof.
  intros Hr Ha. cbv zeta.
  destruct (reachable_invariants db Hr) as [Hok Hc].
  destruct (select_active_found db _ Hc Ha) as (vid & t0 & sid & sno & Hsel).
  destruct (submit_exit_cases db n now)
    as [[_ Hno]|(vid' & t0' & sid' & sno' & Hn & Hsel' & E)].
  { exfalso. apply has_active_row in Ha as (v & Hv & En & _).
    destruct (reachable_texts db Hr v Hv) as [Ht _].
    apply trimmed_strip in Ht as [_ Ht]. rewrite En in Ht.
    apply truthy_iff in Ht.
    rewrite (submit_exit_found db n now vid t0 sid sno) in Hno;
      [|now apply truthy_iff|exact Hsel].
    eapply Hno. reflexivity. }
  rewrite Hsel in Hsel'. injection Hsel' as <- <- <- <-.
  rewrite E. simpl fst. simpl snd.
  exists sno, (billed_minutes now t0).
  destruct (exit_store_counts db _ vid t0 sid sno
              (inject_Z (billed_minutes now t0)) (strftime now)
              Hok Hc Hsel) as (_ & H2 & H3).
  split; [reflexivity|]. split; [apply billed_minutes_pos|].
  split; [exact H2|]. split; [exact H3|]. split.
  - apply select_active_some in Hsel
      as (v0 & s0 & Hv0 & En0 & Ea0 & Hvid0 & _).
    destruct (has_active (exit_store db vid sid _ _) (Str.strip n)) eqn:Hx; auto.
    exfalso. apply has_active_row in Hx as (v & Hv & En & Ea).
    simpl in Hv. apply exit_rows in Hv as [[Hv Hne]|[_ Hcl]]; [|congruence].
    apply Hne. rewrite <- Hvid0. f_equal.
    apply (unique_column_row vehicle_number (vehicles db)); auto.
    + apply (vehicle_number_unique db Hok).
    + congruence.
  - simpl. rewrite length_app. simpl. lia.
Qed.

Lemma exit_of_parked_vehicle_witness :
  exists slot_no minutes,
    fst (submit_exit three_slots_db " Y " 700000000)
      = Payment (Str.strip " Y ") slot_no minutes (inject_Z minutes)
    /\ 1 <= minutes
    /\ Sql.count_free (snd (submit_exit three_slots_db " Y " 700000000))
       = Sql.count_free three_slots_db + 1
    /\ Sql.count_parked (snd (submit_exit three_slots_db " Y " 700000000))
       = Sql.count_parked three_slots_db - 1
    /\ has_active (snd (submit_exit three_slots_db " Y " 700000000))
         (Str.strip " Y ") = false
    /\ List.length (payments (snd (submit_exit three_slots_db " Y " 700000000)))
       = S (List.length (payments three_slots_db)).
Proof.
  apply (exit_of_parked_vehicle three_slots_db " Y " 700000000).
  - apply (reachable_run_all _).
  - vm_compute. reflexivity.
Defined.

(** ** A recorded number stays recorded *)

Lemma known_row db vnum :
  known db vnum = true <->
  exists v, In v (vehicles db) /\ vehicle_number v = vnum.
Proof. apply (eqb_column_true vehicle_number). Qed.

Lemma run_keeps_known db o vnum :
  known db vnum = true -> known (run o db) vnum = true.
Proof.
  rewrite !known_row. intros (v & Hv & En).
  destruct o as [total|o n now|n now]; simpl.
  - destruct (update_slots_frame db total) as (-> & _). eauto.
  - destruct (submit_store db o n now) as [->|(sid & sno & _ & _ & ->)]; eauto.
    exists v. split; auto. simpl. apply in_or_app. now left.
  - destruct (submit_exit_store db n now)
      as [->|(vid & t0 & sid & sno & m & _ & ->)]; eauto.
    simpl. eexists. split; [apply in_map; exact Hv|].
    destruct (vehicle_id v =? vid); simpl; auto.
Qed.

(** No operation removes a vehicle number from [vehicles]; hence once a
    number has been parked, no later [submit] of that number ever parks it
    again, whether or not its session was closed in between. *)
Theorem recorded_number_never_parked_again db ops o n now :
  known db (Str.strip n) = true ->
  let db' := run_all ops db in
  known db' (Str.strip n) = true
  /\ snd (submit db' o n now) = db'
  /\ forall slot_no, fst (submit db' o n now) <> Parked slot_no.
Proof.
  intros Hk. cbv zeta.
  assert (Hk' : known (run_all ops db) (Str.strip n) = true).
  { unfold run_all. revert db Hk.
    induction ops as [|op ops IH]; simpl; intros db Hk; auto.
    apply IH. now apply run_keeps_known. }
  split; [exact Hk'|].
  destruct (submit_parked_store (run_all ops db) o n now)
    as [E|(sid & sno & _ & _ & Hf & _)]; [|congruence].
  split; [exact E|].
  intros slot_no Hp.
  destruct (Str.truthy (Str.strip n)) eqn:Ht.
  - apply truthy_iff in Ht.
    destruct (Sql.select_free_slot (run_all ops db)) as [[sid sno]|] eqn:Hf.
    + rewrite (submit_known _ o n now sid sno Ht Hf Hk') in Hp. discriminate.
    + rewrite (submit_full _ o n now Ht Hf) in Hp. discriminate.
  - unfold submit in Hp. rewrite Ht in Hp. discriminate.
Qed.

Lemma recorded_number_never_parked_again_witness :
  let db' := run_all [Submit_exit "X" 90000000; Update_slots (Some 9)]
                     three_slots_db in
  known db' (Str.strip "X") = true
  /\ snd (submit db' "a" "X" 99000000) = db'
  /\ forall slot_no, fst (submit db' "a" "X" 99000000) <> Parked slot_no.
Proof.
  apply (recorded_number_never_parked_again three_slots_db
           [Submit_exit "X" 90000000; Update_slots (Some 9)] "a" "X" 99000000).
  vm_compute. reflexivity.
Defined.

(** ** The journal against the ledger *)

Lemma filter_nil_iff {A} (f : A -> bool) (l : list A) :
  filter f l = [] <-> forall x, In x l -> f x = false.
Proof.
  induction l as [|a l IH]; simpl; [split; [intros _ x []|reflexivity]|].
  destruct (f a) eqn:E.
  - split; [discriminate|]. intros H. rewrite (H a (or_introl eq_refl)) in E.
    discriminate.
  - rewrite IH. split.
    + intros H x [<-|Hx]; auto.
    + intros H x Hx. apply H. now right.
Qed.

Lemma empty_db_audited : audited empty_db.
Proof. constructor; simpl; intros; contradiction. Qed.

Lemma park_store_audited db owner vnum sid t :
  audited db -> audited (park_store db owner vnum sid t).
Proof.
  intros [A1 A2 A3].
  constructor; unfold payments_of, park_store in *; simpl.
  - intros p Hp. destruct (A1 p Hp) as (v & m & Hv & H).
    exists v, m. split; auto. apply in_or_app. now left.
  - intros v Hv Ha. apply in_app_iff in Hv as [Hv|[<-|[]]]; auto.
    simpl. apply filter_nil_iff. intros p Hp. apply Z.eqb_neq. intros E.
    destruct (A1 p Hp) as (v & m & Hv & Hid & _).
    apply (next_rowid_fresh (seq_vehicles db) (map vehicle_id (vehicles db))).
    rewrite <- E, <- Hid. now apply in_map.
  - intros v tx Hv Hx. apply in_app_iff in Hv as [Hv|[<-|[]]]; eauto.
    discriminate.
Qed.

Lemma exit_store_audited db vnum vid t0 sid sno now :
  schema_ok db -> audited db ->
  Sql.select_active vnum db = Some (vid, t0, sid, sno) ->
  audited (exit_store db vid sid (inject_Z (billed_minutes now t0))
             (strftime now)).
Proof.
  intros Hok [A1 A2 A3] Hsel.
  apply select_active_some in Hsel
    as (v0 & s0 & Hv0 & _ & Hact0 & Hvid0 & Ht0 & _).
  pose proof (vehicle_id_key db Hok) as Hkey.
  assert (Hclosed : forall v tx, In v (vehicles db) -> exit_time v = Some tx ->
                                 vehicle_id v <> vid).
  { intros v tx Hv Hx E. rewrite <- Hvid0 in E.
    rewrite (key_determines_row vehicle_id _ v v0 Hkey Hv Hv0 E) in Hx.
    congruence. }
  constructor; unfold payments_of, exit_store in *; simpl.
  - intros p Hp. apply in_app_iff in Hp as [Hp|[<-|[]]].
    + destruct (A1 p Hp) as (v & m & Hv & Hid & Hx & Ham).
      exists v, m. split; [|split; auto]. apply in_map_iff. exists v. split; auto.
      destruct (Z.eqb_spec (vehicle_id v) vid) as [E|E]; auto.
      exfalso. now apply (Hclosed v _ Hv Hx).
    + eexists. exists (billed_minutes now t0).
      split; [apply in_map; exact Hv0|].
      rewrite Hvid0, Z.eqb_refl. simpl. rewrite Ht0.
      repeat split; auto using billed_minutes_pos, billed_minutes_stored.
  - intros v Hv Ha. apply exit_rows in Hv as [[Hv Hne]|[_ Hx]]; [|congruence].
    rewrite filter_snoc_false by (simpl; apply Z.eqb_neq; auto). auto.
  - intros v tx Hv Hx. apply exit_rows in Hv as [[Hv Hne]|[Hid _]].
    + rewrite filter_snoc_false by (simpl; apply Z.eqb_neq; auto). eauto.
    + rewrite filter_app, Hid, <- Hvid0, (A2 v0 Hv0 Hact0). simpl.
      rewrite Hvid0, Z.eqb_refl. eauto.
Qed.

Lemma run_audited db o : schema_ok db -> audited db -> audited (run o db).
Proof.
  intros Hok Ha. destruct o as [total|o n now|n now]; simpl.
  - destruct (update_slots_frame db total) as (Hv & Hp & _).
    destruct Ha as [A1 A2 A3].
    constructor; unfold payments_of in *; rewrite ?Hv, ?Hp; auto.
  - destruct (submit_store db o n now) as [->|(sid & sno & _ & _ & ->)]; auto.
    now apply park_store_audited.
  - destruct (submit_exit_cases db n now)
      as [[-> _]|(vid & t0 & sid & sno & _ & Hsel & ->)]; auto.
    simpl. eapply exit_store_audited; eauto.
Qed.

Lemma reachable_audited db : reachable db -> audited db.
Proof.
  induction 1 as [|db o Hr IH]; [apply empty_db_audited|].
  apply run_audited; auto. now apply reachable_schema.
Qed.

(** In every store reached from the empty one, a session without exit
    timestamp has no payment, and a session closed at [t] has exactly one
    payment row; that row is dated [t] and its amount is a whole number of
    at least 1, which is [max 1 (floor ((t - entry) / 60))] of the stored
    timestamps whenever they lie less than 2^34 seconds apart. *)
Theorem closed_session_billed_once db v :
  reachable db -> In v (vehicles db) ->
  match exit_time v with
  | None => payments_of (vehicle_id v) db = []
  | Some t =>
      exists pid m,
        payments_of (vehicle_id v) db
        = [mk_payment pid (vehicle_id v) (inject_Z m) t]
        /\ 1 <= m
        /\ (t - entry_time v < exact_stay_limit ->
            m = spec_minutes (entry_time v) t)
  end.
Proof.
  intros Hr Hv. destruct (reachable_audited db Hr) as [A1 A2 A3].
  pose proof (vehicle_id_key db (reachable_schema db Hr)) as Hkey.
  destruct (exit_time v) as [t|] eqn:Hx; [|now apply A2].
  destruct (A3 v t Hv Hx) as (p & Hp).
  assert (Hin : In p (payments_of (vehicle_id v) db))
    by (rewrite Hp; now left).
  apply filter_In in Hin as [Hin Hid]. apply Z.eqb_eq in Hid.
  destruct (A1 p Hin) as (v' & m & Hv' & Hid' & Hx' & Ham & Hm1 & Hm2).
  assert (v' = v)
    by (apply (key_determines_row vehicle_id (vehicles db)); auto; congruence).
  subst v'. rewrite Hx in Hx'. injection Hx' as Ht.
  exists (payment_id p), m. rewrite Hp. split; [|split; [exact Hm1|]].
  - f_equal. destruct p as [pid pv pa pt]; simpl in *. congruence.
  - rewrite <- Ht in Hm2. exact Hm2.
Qed.

Lemma closed_session_billed_once_witness :
  exists pid,
    payments_of 1 demo_db = [mk_payment pid 1 (inject_Z (spec_minutes 0 300)) 300].
Proof.
  destruct (closed_session_billed_once demo_db
              (mk_vehicle 1 "Asha" "KA01AB1234" 1 0 (Some 300)))
    as (pid & m & E & _ & Hm).
  - apply (reachable_run_all demo_ops).
  - vm_compute. left. reflexivity.
  - exists pid. simpl in E, Hm. rewrite (Hm eq_refl) in E. exact E.
Defined.

(** ** Revenue along a run *)

Lemma fold_Qplus_snoc (l : list Q) (x a : Q) :
  fold_left Qplus (l ++ [x]) a == fold_left Qplus l a + x.
Proof. rewrite fold_left_app. simpl. reflexivity. Qed.

(** In a store the application produces, a successful [submit_exit] raises
    the revenue shown by [payments_window] by exactly the amount it reports;
    [submit] and [update_slots] leave the payments, hence the revenue, as
    they are. *)
Theorem revenue_grows_by_fee db :
  reachable db ->
  (forall n now vnum sno m a,
      fst (submit_exit db n now) = Payment vnum sno m a ->
      payments_total (snd (submit_exit db n now)) == payments_total db + a)
  /\ (forall o n now, payments (snd (submit db o n now)) = payments db)
  /\ (forall total, payments (snd (update_slots db total)) = payments db).
Proof.
  intros Hr. split; [|split].
  - intros n now vnum sno m a Hp.
    assert (Hr' : reachable (run (Submit_exit n now) db)) by now constructor.
    simpl in Hr'.
    rewrite (reachable_total_exact _ Hr'), (reachable_total_exact _ Hr).
    destruct (submit_exit_cases db n now)
      as [[_ Hno]|(vid & t0 & sid & sno' & _ & _ & E)].
    + exfalso. eapply Hno. exact Hp.
    + rewrite E in Hp |- *. simpl in Hp. injection Hp as _ _ _ <-.
      simpl. rewrite map_app. simpl. apply fold_Qplus_snoc.
  - intros o n now.
    destruct (submit_store db o n now) as [->|(sid & sno & _ & _ & ->)]; auto.
  - intros total. now destruct (update_slots_frame db total) as (_ & -> & _).
Qed.

Lemma revenue_grows_by_fee_witness :
  payments_total (snd (submit_exit three_slots_db "Y" 700000000))
  == payments_total three_slots_db + 11.
Proof.
  destruct (revenue_grows_by_fee three_slots_db (reachable_run_all _)) as [H _].
  apply (H "Y" 700000000 "Y" "Slot-2" 11 11%Q).
  vm_compute. reflexivity.
Defined.

(** ** Parking and leaving again *)

Lemma find_slot_by_id (l : list slot) s :
  NoDup (map slot_id l) -> In s l ->
  find (fun r => slot_id r =? slot_id s) l = Some s.
Proof.
  induction l as [|a l IH]; simpl; intros Hnd Hin; [tauto|].
  inversion_clear Hnd as [|? ? Ha Hl].
  destruct Hin as [->|Hin]; [now rewrite Z.eqb_refl|].
  destruct (Z.eqb_spec (slot_id a) (slot_id s)) as [E|E]; [|auto].
  exfalso. apply Ha. rewrite E. now apply in_map.
Qed.

Lemma find_slot_after_update occ sid k (l : list slot) :
  find (fun r => slot_id r =? k)
       (map (fun r => if slot_id r =? sid
                      then mk_slot (slot_id r) (slot_number r) occ else r) l)
  = option_map (fun r => if slot_id r =? sid
                         then mk_slot (slot_id r) (slot_number r) occ else r)
               (find (fun r => slot_id r =? k) l).
Proof.
  induction l as [|a l IH]; simpl; [reflexivity|].
  destruct (slot_id a =? sid) eqn:E1; simpl;
    destruct (slot_id a =? k) eqn:E2; simpl; rewrite ?E1; auto.
Qed.

Lemma find_snoc_only {A} (f : A -> bool) (l : list A) x :
  (forall y, In y l -> f y = false) -> f x = true ->
  find f (l ++ [x]) = Some x.
Proof.
  induction l as [|a l IH]; simpl; intros Hl Hx; [now rewrite Hx|].
  rewrite (Hl a (or_introl eq_refl)). apply IH; auto.
Qed.

Lemma occupy_then_release (l : list slot) s :
  NoDup (map slot_id l) -> In s l -> is_occupied s = 0 ->
  map (fun r => if slot_id r =? slot_id s
                then mk_slot (slot_id r) (slot_number r) 0 else r)
      (map (fun r => if slot_id r =? slot_id s
                     then mk_slot (slot_id r) (slot_number r) 1 else r) l)
  = l.
Proof.
  intros Hnd Hin Hocc. rewrite map_map.
  rewrite <- (map_id l) at 2. apply map_ext_in. intros r Hr.
  destruct (Z.eqb_spec (slot_id r) (slot_id s)) as [E|E]; simpl.
  - rewrite E, Z.eqb_refl.
    assert (r = s)
      by (apply (key_determines_row slot_id l); auto).
    subst r. destruct s; simpl in *. now subst.
  - destruct (Z.eqb_spec (slot_id r) (slot_id s)); [contradiction|reflexivity].
Qed.

(** Parking a number that is not yet recorded and then letting it leave:
    the exit finds the session, names the slot that was assigned and bills a
    whole amount of at least one minute, which is the fee of the stay between
    the two stored timestamps when they lie less than 2^34 seconds apart;
    the [slots] table is left exactly as it was before the vehicle came, so
    that the same slot is the next one to be assigned. *)
Theorem park_then_exit_restores_slots db o n now later :
  schema_ok db -> Str.strip n <> "" -> known db (Str.strip n) = false ->
  0 < Sql.count_free db ->
  let db1 := snd (submit db o n now) in
  let db2 := snd (submit_exit db1 n later) in
  exists slot_no minutes,
    fst (submit db o n now) = Parked slot_no
    /\ fst (submit_exit db1 n later)
       = Payment (Str.strip n) slot_no minutes (inject_Z minutes)
    /\ 1 <= minutes
    /\ (strftime later - strftime now < exact_stay_limit ->
        minutes = spec_minutes (strftime now) (strftime later))
    /\ slots db2 = slots db
    /\ Sql.select_free_slot db2 = Sql.select_free_slot db.
Proof.
  intros Hok Hn Hk Hfree. cbv zeta.
  destruct (Sql.select_free_slot db) as [[sid sno]|] eqn:Hf.
  2:{ apply select_free_slot_none in Hf. lia. }
  rewrite (submit_fresh db o n now sid sno Hn Hf Hk). simpl fst. simpl snd.
  pose proof Hf as Hf0.
  apply select_free_slot_some in Hf as (s & Hin & <- & <- & Hocc).
  fold (park_store db (Str.strip o) (Str.strip n) (slot_id s) (strftime now)).
  set (db1 := park_store db (Str.strip o) (Str.strip n) (slot_id s)
                (strftime now)).
  pose proof (slot_id_key db Hok) as Hkey.
  set (vnew := mk_vehicle
                 (Sql.next_rowid (seq_vehicles db) (map vehicle_id (vehicles db)))
                 (Str.strip o) (Str.strip n) (slot_id s) (strftime now) None).
  assert (Hj : Sql.joined db1 vnew
               = Some (mk_slot (slot_id s) (slot_number s) 1)).
  { unfold Sql.joined, db1, park_store. simpl.
    rewrite find_slot_after_update.
    rewrite (find_slot_by_id _ s Hkey Hin). simpl.
    now rewrite Z.eqb_refl. }
  assert (Hsel : Sql.select_active (Str.strip n) db1
                 = Some (vehicle_id vnew, strftime now, slot_id s,
                         slot_number s)).
  { unfold Sql.select_active.
    replace (vehicles db1) with (vehicles db ++ [vnew])%list by reflexivity.
    rewrite (find_snoc_only _ _ vnew).
    - now rewrite Hj.
    - intros y Hy.
      apply (eqb_column_false vehicle_number) in Hk.
      destruct (String.eqb_spec (vehicle_number y) (Str.strip n)) as [E|E];
        [|reflexivity].
      exfalso. apply Hk. rewrite <- E. now apply in_map.
    - rewrite Hj. simpl. now rewrite String.eqb_refl. }
  destruct (submit_exit_cases db1 n later)
    as [[_ Hno']|(vid & t0 & sid' & sno' & _ & Hsel' & E)].
  { exfalso. rewrite (submit_exit_found db1 n later _ _ _ _ Hn Hsel) in Hno'.
    eapply Hno'. reflexivity. }
  rewrite Hsel in Hsel'. injection Hsel' as <- <- <- <-.
  rewrite E. simpl fst. simpl snd.
  exists (slot_number s), (billed_minutes later (strftime now)).
  split; [reflexivity|]. split; [reflexivity|].
  split; [apply billed_minutes_pos|].
  split; [apply billed_minutes_stored|].
  assert (Hs : slots (exit_store db1 (vehicle_id vnew) (slot_id s)
                        (inject_Z (billed_minutes later (strftime now)))
                        (strftime later)) = slots db).
  { unfold exit_store, db1, park_store. simpl.
    now apply occupy_then_release. }
  split; [exact Hs|].
  assert (Hdep : forall a b, slots a = slots b ->
                             Sql.select_free_slot a = Sql.select_free_slot b)
    by (intros a b Hab; unfold Sql.select_free_slot; now rewrite Hab).
  rewrite <- Hf0. apply Hdep. exact Hs.
Qed.

Lemma park_then_exit_restores_slots_witness :
  let db1 := snd (submit three_slots_db "c" "Z" 60000000) in
  let db2 := snd (submit_exit db1 "Z" 250000000) in
  exists slot_no minutes,
    fst (submit three_slots_db "c" "Z" 60000000) = Parked slot_no
    /\ fst (submit_exit db1 "Z" 250000000)
       = Payment (Str.strip "Z") slot_no minutes (inject_Z minutes)
    /\ 1 <= minutes
    /\ minutes = spec_minutes (strftime 60000000) (strftime 250000000)
    /\ slots db2 = slots three_slots_db
    /\ Sql.select_free_slot db2 = Sql.select_free_slot three_slots_db.
Proof.
  destruct (park_then_exit_restores_slots three_slots_db "c" "Z"
              60000000 250000000)
    as (slot_no & minutes & H1 & H2 & H3 & H4 & H5 & H6).
  - apply reachable_schema, (reachable_run_all _).
  - vm_compute. discriminate.
  - vm_compute. reflexivity.
  - vm_compute. reflexivity.
  - exists slot_no, minutes. repeat split; auto.
    apply H4. vm_compute. reflexivity.
Defined.

(** ** Slot labels *)

Lemma range_snoc lo hi : lo <= hi -> range lo (hi + 1) = (range lo hi ++ [hi])%list.
Proof.
  intros H. unfold range.
  replace (Z.to_nat (hi + 1 - lo)) with (S (Z.to_nat (hi - lo))) by lia.
  rewrite seq_S, map_app. simpl. do 2 f_equal. lia.
Qed.

Lemma slot_name_in_range i lo hi :
  In (slot_name i) (map slot_name (range lo hi)) <-> lo <= i < hi.
Proof.
  rewrite in_map_iff. split.
  - intros (j & E & Hj). apply slot_name_inj in E. subst j. now apply in_range.
  - intros H. exists i. split; auto. now apply in_range.
Qed.

(** One pass of the loop body on a numbered table. *)
Lemma insert_numbered i w :
  numbered w -> 1 <= i <= Sql.count_slots w + 1 ->
  numbered (Sql.insert_or_ignore_slot (slot_name i) w)
  /\ Sql.count_slots (Sql.insert_or_ignore_slot (slot_name i) w)
     = Z.max (Sql.count_slots w) i.
Proof.
  unfold numbered, labels, Sql.count_slots. intros Hnum Hi.
  destruct (Z.eq_dec i (Z.of_nat (List.length (slots w)) + 1)) as [E|E].
  - assert (Habs : ~ In (slot_name i) (labels w)).
    { unfold labels. rewrite Hnum, slot_name_in_range. lia. }
    rewrite (insert_or_ignore_slot_absent _ _ Habs).
    rewrite map_app, length_app, Hnum. simpl.
    replace (Z.of_nat (List.length (slots w) + 1) + 1) with (i + 1) by lia.
    rewrite (range_snoc 1 i) by lia. rewrite map_app. simpl.
    split; [|lia]. do 2 f_equal. f_equal. lia.
  - assert (Hpres : In (slot_name i) (labels w)).
    { unfold labels. rewrite Hnum, slot_name_in_range. lia. }
    rewrite (insert_or_ignore_slot_present _ _ Hpres). split; [exact Hnum|lia].
Qed.

Lemma insert_slots_numbered (n : nat) w :
  numbered w ->
  numbered (insert_slots (Z.of_nat n) w)
  /\ Sql.count_slots (insert_slots (Z.of_nat n) w)
     = Z.max (Sql.count_slots w) (Z.of_nat n).
Proof.
  intros Hnum. unfold insert_slots.
  induction n as [|n [IH1 IH2]].
  - simpl. split; [exact Hnum|]. unfold Sql.count_slots. lia.
  - replace (Z.of_nat (S n) + 1) with (Z.of_nat n + 1 + 1) by lia.
    rewrite (range_snoc 1 (Z.of_nat n + 1)) by lia.
    rewrite fold_left_app. simpl.
    destruct (insert_numbered (Z.of_nat n + 1) _ IH1) as [H1 H2].
    + rewrite IH2. lia.
    + split; [exact H1|]. rewrite H2, IH2. lia.
Qed.

Lemma run_numbered db o : numbered db -> numbered (run o db).
Proof.
  intros Hnum. destruct o as [total|o n now|n now]; simpl.
  - unfold update_slots. destruct total as [total|]; simpl; auto.
    destruct (Z.leb_spec total 0); simpl; auto.
    rewrite <- (Z2Nat.id total) by lia. now apply insert_slots_numbered.
  - destruct (submit_store db o n now) as [->|(sid & sno & _ & _ & ->)]; auto.
    unfold numbered, labels, Sql.count_slots, park_store in *. simpl.
    rewrite length_map, map_key_update; auto.
    intros s. now destruct (slot_id s =? sid).
  - destruct (submit_exit_store db n now)
      as [->|(vid & t0 & sid & sno & m & _ & ->)]; auto.
    unfold numbered, labels, Sql.count_slots, exit_store in *. simpl.
    rewrite length_map, map_key_update; auto.
    intros s. now destruct (slot_id s =? sid).
Qed.

Lemma reachable_numbered db : reachable db -> numbered db.
Proof.
  induction 1; [reflexivity|]. now apply run_numbered.
Qed.

(** In every store reached from the empty one the slot labels are exactly
    Slot-1 .. Slot-K in table order, K being the number of slots.  There
    [update_slots] with a positive total reports [max K total] slots; when
    the total does not exceed K no row of [slots] changes, so the lot never
    shrinks. *)
Theorem slots_numbered_and_never_shrink db total :
  reachable db -> 0 < total ->
  let K := Sql.count_slots db in
  labels db = map slot_name (range 1 (K + 1))
  /\ fst (update_slots db (Some total)) = Success (Z.max K total)
  /\ (total <= K -> slots (snd (update_slots db (Some total))) = slots db).
Proof.
  intros Hr Hpos. cbv zeta.
  pose proof (reachable_numbered db Hr) as Hnum.
  split; [exact Hnum|].
  rewrite (update_slots_store db total Hpos). simpl fst. simpl snd.
  destruct (insert_slots_numbered (Z.to_nat total) db Hnum) as [_ Hc].
  rewrite Z2Nat.id in Hc by lia.
  split; [now rewrite Hc|].
  intros Hle.
  destruct (fold_insert_slots_spec (range 1 (total + 1)) db)
    as (_ & _ & (new & Hs & _) & _).
  fold (insert_slots total db) in Hs.
  unfold Sql.count_slots in Hc. rewrite Hs, length_app in Hc.
  destruct new as [|x new]; [now rewrite app_nil_r in Hs|].
  simpl in Hc. unfold Sql.count_slots in Hle. lia.
Qed.

Lemma slots_numbered_and_never_shrink_witness :
  labels three_slots_db = map slot_name (range 1 (3 + 1))
  /\ fst (update_slots three_slots_db (Some 2)) = Success (Z.max 3 2)
  /\ slots (snd (update_slots three_slots_db (Some 2))) = slots three_slots_db.
Proof.
  destruct (slots_numbered_and_never_shrink three_slots_db 2
              (reachable_run_all _) eq_refl) as (H1 & H2 & H3).
  split; [exact H1|]. split; [exact H2|]. apply H3. vm_compute. discriminate.
Defined.

(** ** Sorting *)

Section OrderBy.

Context {A : Type} (before : A -> A -> bool).

Lemma insert_by_perm x l : Permutation (insert_by before x l) (x :: l).
Proof.
  induction l as [|y l IH]; simpl; [reflexivity|].
  destruct (before x y); [reflexivity|].
  rewrite IH. apply perm_swap.
Qed.

Lemma order_by_perm l : Permutation (order_by before l) l.
Proof.
  induction l as [|x l IH]; simpl; [reflexivity|].
  rewrite insert_by_perm. now constructor.
Qed.

Lemma order_by_length l : List.length (order_by before l) = List.length l.
Proof. apply Permutation_length, order_by_perm. Qed.

Lemma order_by_in x l : In x (order_by before l) <-> In x l.
Proof.
  split; apply Permutation_in; [|symmetry]; apply order_by_perm.
Qed.

Hypothesis before_total : forall a b, before a b = false -> before b a = true.
Hypothesis before_trans :
  forall a b c, before a b = true -> before b c = true -> before a c = true.

Lemma insert_by_sorted x l :
  StronglySorted (fun a b => before a b = true) l ->
  StronglySorted (fun a b => before a b = true) (insert_by before x l).
Proof.
  induction 1 as [|y l Hs IH Hy]; simpl.
  - constructor; constructor.
  - destruct (before x y) eqn:E.
    + constructor; [constructor; assumption|].
      constructor; [exact E|].
      rewrite Forall_forall in *. intros z Hz. eauto.
    + constructor; [exact IH|].
      rewrite Forall_forall in *. intros z Hz.
      apply (Permutation_in _ (insert_by_perm x l)) in Hz.
      destruct Hz as [<-|Hz]; auto.
Qed.

Lemma order_by_sorted l :
  StronglySorted (fun a b => before a b = true) (order_by before l).
Proof.
  induction l as [|x l IH]; simpl; [constructor|]. now apply insert_by_sorted.
Qed.

End OrderBy.

(** A table that is already in the requested order comes back as it is, and
    one in the opposite strict order comes back reversed. *)
Lemma order_by_sorted_same {A} (before : A -> A -> bool) (l : list A) :
  StronglySorted (fun a b => before a b = true) l -> order_by before l = l.
Proof.
  induction 1 as [|x l Hs IH Hx]; simpl; [reflexivity|].
  rewrite IH. destruct l as [|y l]; simpl; [reflexivity|].
  inversion_clear Hx as [|? ? Hy _]. now rewrite Hy.
Qed.

Lemma insert_by_last {A} (before : A -> A -> bool) x (l : list A) :
  (forall y, In y l -> before x y = false) ->
  insert_by before x l = (l ++ [x])%list.
Proof.
  induction l as [|y l IH]; simpl; intros H; [reflexivity|].
  rewrite (H y (or_introl eq_refl)). f_equal. apply IH. auto.
Qed.

Lemma order_by_reversed {A} (before : A -> A -> bool) (l : list A) :
  StronglySorted (fun a b => before a b = false) l -> order_by before l = rev l.
Proof.
  induction 1 as [|x l Hs IH Hx]; simpl; [reflexivity|].
  rewrite IH. apply insert_by_last.
  rewrite Forall_forall in Hx. intros y Hy. apply Hx. now apply in_rev.
Qed.

Lemma StronglySorted_snoc {A} (R : A -> A -> Prop) (l : list A) y :
  StronglySorted R l -> (forall x, In x l -> R x y) ->
  StronglySorted R (l ++ [y]).
Proof.
  induction 1 as [|a l Hs IH Ha]; simpl; intros H.
  - constructor; constructor.
  - constructor; [apply IH; auto|].
    rewrite Forall_forall in *. intros z Hz.
    apply in_app_iff in Hz as [Hz|[<-|[]]]; auto.
Qed.

Lemma StronglySorted_weaken {A} (R R' : A -> A -> Prop) (l : list A) :
  StronglySorted R l -> (forall a b, R a b -> R' a b) -> StronglySorted R' l.
Proof.
  induction 1 as [|a l Hs IH Ha]; intros H; constructor; auto.
  rewrite Forall_forall in *. auto.
Qed.

Lemma StronglySorted_map {A B} (R : B -> B -> Prop) (f : A -> B) (l : list A) :
  StronglySorted R (map f l) <-> StronglySorted (fun a b => R (f a) (f b)) l.
Proof.
  induction l as [|a l IH]; simpl.
  - split; constructor.
  - split; intros H; inversion_clear H as [|? ? Hs Ha];
      (constructor; [now apply IH|]);
      rewrite Forall_forall in *.
    + intros x Hx. apply Ha. now apply in_map.
    + intros y Hy. apply in_map_iff in Hy as (x & <- & Hx). auto.
Qed.

(** ** The main table *)

Lemma empty_db_filed : filed empty_db.
Proof. constructor; simpl; [constructor | intros v []]. Qed.

Lemma run_filed db o : filed db -> filed (run o db).
Proof.
  intros [F1 F2]. destruct o as [total|o n now|n now]; simpl.
  - destruct (update_slots_frame db total) as (Hv & _ & new & Hs & _).
    constructor; rewrite ?Hv; auto.
    intros v Hin. destruct (F2 v Hin) as (s & Hsin & Hid).
    exists s. rewrite Hs, in_app_iff. auto.
  - destruct (submit_store db o n now) as [->|(sid & sno & Hf & _ & ->)].
    { now constructor. }
    apply select_free_slot_some in Hf as (s0 & Hs0 & Hid0 & _).
    constructor; unfold park_store; simpl.
    + rewrite map_app. simpl. apply StronglySorted_snoc; auto.
      intros x Hx. now apply next_rowid_above.
    + intros v Hv.
      assert (Hex : exists s, In s (slots db) /\ slot_id s = v_slot_id v).
      { apply in_app_iff in Hv as [Hv|[<-|[]]]; eauto. }
      destruct Hex as (s & Hs & Hid).
      destruct (slot_after_update 1 sid _ s Hs) as (s' & Hs' & Hid' & _).
      exists s'. split; auto. congruence.
  - destruct (submit_exit_store db n now)
      as [->|(vid & t0 & sid & sno & m & _ & ->)].
    { now constructor. }
    constructor; unfold exit_store; simpl.
    + rewrite map_key_update; auto.
      intros v. now destruct (vehicle_id v =? vid).
    + intros v' Hv'. apply in_map_iff in Hv' as (v & <- & Hv).
      destruct (F2 v Hv) as (s & Hs & Hid).
      destruct (slot_after_update 0 sid _ s Hs) as (s' & Hs' & Hid' & _).
      exists s'. split; auto.
      destruct (vehicle_id v =? vid); simpl; congruence.
Qed.

Lemma reachable_filed db : reachable db -> filed db.
Proof.
  induction 1; [apply empty_db_filed|]. now apply run_filed.
Qed.

Lemma in_firstn {A} (n : nat) (l : list A) x : In x (firstn n l) -> In x l.
Proof.
  intros H. rewrite <- (firstn_skipn n l). apply in_or_app. now left.
Qed.

Lemma joined_some db v s :
  In s (slots db) -> slot_id s = v_slot_id v ->
  exists s', Sql.joined db v = Some s'.
Proof.
  intros Hs Hid. unfold Sql.joined.
  destruct (find _ (slots db)) as [s'|] eqn:F; [eauto|].
  apply find_none with (x := s) in F; auto.
  apply Z.eqb_neq in F. contradiction.
Qed.

(** In every store reached from the empty one, the main table shows the
    sessions newest first: its rows are the first 50 rows of [vehicles]
    read backwards, so at most 50, and every row comes with the label of its
    slot. *)
Theorem main_table_newest_first db :
  reachable db ->
  let rows := fst (refresh_main_table db) in
  rows = firstn 50 (rev (map (main_row_of db) (vehicles db)))
  /\ (List.length rows <= 50)%nat
  /\ (forall id num sl t x, In (id, num, sl, t, x) rows ->
        exists label, sl = Some label).
Proof.
  intros Hr. cbv zeta. destruct (reachable_filed db Hr) as [F1 F2].
  assert (E : fst (refresh_main_table db)
              = firstn 50 (rev (map (main_row_of db) (vehicles db)))).
  { unfold refresh_main_table. cbn [fst]. rewrite <- map_rev. do 2 f_equal.
    apply order_by_reversed.
    apply (proj1 (StronglySorted_map Z.lt vehicle_id (vehicles db))) in F1.
    apply (StronglySorted_weaken _ _ _ F1).
    intros a b Hab. now apply Z.leb_gt. }
  split; [exact E|]. split; [rewrite E; apply firstn_le_length|].
  intros id num sl t x Hin. rewrite E in Hin.
  apply in_firstn, in_rev, in_map_iff in Hin as (v & Hrow & Hv).
  unfold main_row_of in Hrow. injection Hrow as _ _ <- _ _.
  destruct (F2 v Hv) as (s & Hs & Hid).
  destruct (joined_some db v s Hs Hid) as (s' & ->). simpl. eauto.
Qed.

Lemma main_table_newest_first_witness :
  fst (refresh_main_table three_slots_db)
  = firstn 50 (rev (map (main_row_of three_slots_db) (vehicles three_slots_db)))
  /\ (List.length (fst (refresh_main_table three_slots_db)) <= 50)%nat
  /\ (forall id num sl t x,
        In (id, num, sl, t, x) (fst (refresh_main_table three_slots_db)) ->
        exists label, sl = Some label).
Proof.
  apply (main_table_newest_first three_slots_db). apply (reachable_run_all _).
Defined.

(** ** The windows that list sessions and payments *)

Lemma flat_map_singletons {A B} (f : A -> list B) (g : A -> B) (l : list A) :
  (forall x, In x l -> f x = [g x]) -> flat_map f l = map g l.
Proof.
  induction l as [|a l IH]; simpl; intros H; [reflexivity|].
  rewrite (H a (or_introl eq_refl)). simpl. f_equal. apply IH. auto.
Qed.

Lemma time_desc_total (A : Type) (a b : A * timestamp) :
  (snd b <=? snd a) = false -> (snd a <=? snd b) = true.
Proof. intros H. apply Z.leb_gt in H. apply Z.leb_le. lia. Qed.

Lemma time_desc_trans (A : Type) (a b c : A * timestamp) :
  (snd b <=? snd a) = true -> (snd c <=? snd b) = true ->
  (snd c <=? snd a) = true.
Proof. rewrite !Z.leb_le. lia. Qed.

Lemma order_by_time_desc (A : Type) (l : list (A * timestamp)) :
  StronglySorted (fun a b => snd b <= snd a)
                 (order_by (fun a b => snd b <=? snd a) l).
Proof.
  apply (StronglySorted_weaken (fun a b => (snd b <=? snd a) = true)).
  - apply order_by_sorted; [apply time_desc_total | apply time_desc_trans].
  - intros a b. apply Z.leb_le.
Qed.

(** In every store reached from the empty one, the "Currently Parked
    Vehicles" window has one row for each session without exit timestamp,
    as many as the status line counts; a vehicle number occurs in it exactly
    when it has an active session, and the rows run from the latest entry
    time to the earliest. *)
Theorem parked_window_lists_active db :
  reachable db ->
  let rows := view_parked_window db in
  Z.of_nat (List.length rows) = Sql.count_parked db
  /\ (forall num, (exists o sl t, In (o, num, sl, t) rows)
                  <-> has_active db num = true)
  /\ StronglySorted (fun a b => snd b <= snd a) rows.
Proof.
  intros Hr. cbv zeta. destruct (reachable_invariants db Hr) as [Hok Hc].
  assert (Hj : forall v, In v (filter Sql.is_active (vehicles db)) ->
                         exists s, Sql.joined db v = Some s).
  { intros v Hv. apply filter_In in Hv as [Hv Ha].
    assert (Hx : exit_time v = None)
      by (unfold Sql.is_active in Ha; now destruct (exit_time v)).
    destruct (active_slot_occupied db Hc v Hv Hx) as (s & Hs & Hid & _).
    exact (joined_some db v s Hs Hid). }
  unfold view_parked_window. split; [|split].
  - rewrite order_by_length. unfold Sql.count_parked. f_equal.
    induction (filter Sql.is_active (vehicles db)) as [|v l IH]; simpl; auto.
    rewrite length_app, IH by (intros x Hx; apply Hj; now right).
    unfold parked_rows_of.
    destruct (Hj v (or_introl eq_refl)) as (s & ->). reflexivity.
  - intros num. rewrite has_active_row. split.
    + intros (o & sl & t & Hin). apply order_by_in, in_flat_map in Hin
        as (v & Hv & Hrow).
      apply filter_In in Hv as [Hv Ha].
      unfold parked_rows_of in Hrow.
      destruct (Sql.joined db v); [|destruct Hrow].
      destruct Hrow as [[= _ <- _ _]|[]].
      exists v. repeat split; auto.
      unfold Sql.is_active in Ha. now destruct (exit_time v).
    + intros (v & Hv & <- & Hx).
      assert (Hf : In v (filter Sql.is_active (vehicles db))).
      { apply filter_In. split; auto. unfold Sql.is_active. now rewrite Hx. }
      destruct (Hj v Hf) as (s & Hs).
      exists (owner_name v), (slot_number s), (entry_time v).
      apply order_by_in, in_flat_map. exists v. split; auto.
      unfold parked_rows_of. rewrite Hs. now left.
  - apply order_by_time_desc.
Qed.

Lemma parked_window_lists_active_witness :
  Z.of_nat (List.length (view_parked_window three_slots_db))
  = Sql.count_parked three_slots_db
  /\ (forall num, (exists o sl t, In (o, num, sl, t)
                                     (view_parked_window three_slots_db))
                  <-> has_active three_slots_db num = true)
  /\ StronglySorted (fun a b => snd b <= snd a)
                    (view_parked_window three_slots_db).
Proof.
  apply (parked_window_lists_active three_slots_db). apply (reachable_run_all _).
Defined.

Lemma fold_Qplus_compat (l : list Q) (a b : Q) :
  a == b -> fold_left Qplus l a == fold_left Qplus l b.
Proof.
  revert a b. induction l as [|x l IH]; simpl; intros a b E; auto.
  apply IH. now rewrite E.
Qed.

Lemma fold_Qplus_perm (l l' : list Q) (a : Q) :
  Permutation l l' -> fold_left Qplus l a == fold_left Qplus l' a.
Proof.
  intros H. revert a. induction H; intros a; simpl.
  - reflexivity.
  - apply IHPermutation.
  - apply fold_Qplus_compat. ring.
  - now rewrite IHPermutation1.
Qed.

(** In every store reached from the empty one, the "Payments / Revenue"
    window lists every payment exactly once, latest first; each row shows
    the number of a session closed at the row's time and a whole amount of
    at least 1, which is the fee of that session's stored stay when it is
    shorter than 2^34 seconds, and the amounts of the rows add up to the
    revenue line. *)
Theorem payments_window_complete db :
  reachable db ->
  let rows := fst (payments_window db) in
  List.length rows = List.length (payments db)
  /\ fold_left Qplus (map (fun r => snd (fst r)) rows) 0%Q
     == snd (payments_window db)
  /\ StronglySorted (fun a b => snd b <= snd a) rows
  /\ (forall num a t, In (num, a, t) rows ->
        exists v m, In v (vehicles db) /\ vehicle_number v = num
                  /\ exit_time v = Some t
                  /\ a = inject_Z m /\ 1 <= m
                  /\ (t - entry_time v < exact_stay_limit ->
                      m = spec_minutes (entry_time v) t)).
Proof.
  intros Hr. cbv zeta.
  destruct (reachable_audited db Hr) as [A1 _ _].
  pose proof (vehicle_id_key db (reachable_schema db Hr)) as Hkey.
  assert (Hrow : forall p, In p (payments db) ->
            exists v m, In v (vehicles db)
                      /\ exit_time v = Some (payment_time p)
                      /\ (amount p = inject_Z m /\ 1 <= m
                          /\ (payment_time p - entry_time v < exact_stay_limit ->
                              m = spec_minutes (entry_time v) (payment_time p)))
                      /\ payment_rows_of db p
                         = [(vehicle_number v, amount p, payment_time p)]).
  { intros p Hp. destruct (A1 p Hp) as (v & m & Hv & Hid & Hx & Ham).
    exists v, m. split; [auto|]. split; [auto|]. split; [exact Ham|].
    unfold payment_rows_of.
    destruct (find _ (vehicles db)) as [v'|] eqn:F.
    - apply find_some in F as [Hv' E]. apply Z.eqb_eq in E.
      assert (v' = v)
        by (apply (key_determines_row vehicle_id (vehicles db)); auto;
            congruence).
      now subst.
    - apply find_none with (x := v) in F; auto.
      apply Z.eqb_neq in F. contradiction. }
  unfold payments_window. cbn [fst snd].
  set (raw := flat_map (payment_rows_of db) (payments db)).
  assert (Hlen : List.length raw = List.length (payments db)
                 /\ map (fun r => snd (fst r)) raw = map amount (payments db)).
  { unfold raw. clear A1. induction (payments db) as [|p l IH]; simpl; auto.
    destruct (Hrow p (or_introl eq_refl)) as (v & m & _ & _ & _ & ->).
    destruct IH as [IH1 IH2]; [intros q Hq; apply Hrow; now right|].
    simpl. split; congruence. }
  destruct Hlen as [Hlen Hamt].
  split; [now rewrite order_by_length|]. split; [|split].
  - rewrite (reachable_total_exact db Hr), <- Hamt.
    apply fold_Qplus_perm, Permutation_map, order_by_perm.
  - apply order_by_time_desc.
  - intros num a t Hin. apply order_by_in in Hin. unfold raw in Hin.
    apply in_flat_map in Hin as (p & Hp & Hin).
    destruct (Hrow p Hp) as (v & m & Hv & Hx & (Ham & Hm1 & Hm2) & E).
    rewrite E in Hin. destruct Hin as [[= <- <- <-]|[]].
    exists v, m. repeat split; auto.
Qed.

Lemma payments_window_complete_witness :
  List.length (fst (payments_window demo_db)) = List.length (payments demo_db)
  /\ fold_left Qplus (map (fun r => snd (fst r)) (fst (payments_window demo_db)))
       0%Q == snd (payments_window demo_db)
  /\ StronglySorted (fun a b => snd b <= snd a) (fst (payments_window demo_db))
  /\ (forall num a t, In (num, a, t) (fst (payments_window demo_db)) ->
        exists v m, In v (vehicles demo_db) /\ vehicle_number v = num
                  /\ exit_time v = Some t
                  /\ a = inject_Z m /\ 1 <= m
                  /\ (t - entry_time v < exact_stay_limit ->
                      m = spec_minutes (entry_time v) t)).
Proof.
  apply (payments_window_complete demo_db). apply (reachable_run_all demo_ops).
Defined.

(** ** The slot status window *)

Lemma digits_of_uint_acc (d : Decimal.uint) (acc : positive) :
  Sqlite.digits (NilEmpty.string_of_uint d) (Z.pos acc)
  = Z.pos (Pos.of_uint_acc d acc).
Proof.
  revert acc.
  induction d; intros acc;
    cbn [NilEmpty.string_of_uint Sqlite.digits Pos.of_uint_acc];
    try reflexivity;
    rewrite <- IHd;
    match goal with
    | |- context [Sqlite.digit ?c] =>
        let v := eval vm_compute in (Sqlite.digit c) in
        change (Sqlite.digit c) with v
    end;
    cbv iota; f_equal; lia.
Qed.

Lemma digits_of_uint (d : Decimal.uint) :
  Sqlite.digits (NilEmpty.string_of_uint d) 0 = Z.of_N (Pos.of_uint d).
Proof.
  induction d;
    cbn [NilEmpty.string_of_uint Sqlite.digits Pos.of_uint];
    try reflexivity;
    match goal with
    | |- context [Sqlite.digit ?c] =>
        let v := eval vm_compute in (Sqlite.digit c) in
        change (Sqlite.digit c) with v
    end;
    cbv iota; [exact IHd | apply digits_of_uint_acc ..].
Qed.

(** Reading back a rendered positive number gives the number, up to the 64
    bits of an SQLite integer. *)
Lemma cast_of_int (p : positive) :
  Sqlite.cast_integer (Str.of_int (Z.pos p)) = Sqlite.clamp64 (Z.pos p).
Proof.
  assert (Hd : forall d, d <> Decimal.Nil ->
             Sqlite.cast_integer (NilZero.string_of_uint d)
             = Sqlite.clamp64 (Sqlite.digits (NilEmpty.string_of_uint d) 0)).
  { intros d Hd. destruct d; [contradiction|reflexivity ..]. }
  unfold Str.of_int. cbn [Z.to_int NilZero.string_of_int].
  rewrite Hd by apply Unsigned.to_uint_nonnil.
  now rewrite digits_of_uint, Unsigned.of_to.
Qed.

Lemma slot_order_key_of_name s i :
  slot_number s = slot_name i -> 1 <= i <= 9223372036854775807 ->
  slot_order_key s = i.
Proof.
  intros E Hi. unfold slot_order_key. rewrite E. unfold slot_name.
  change (Sqlite.substr ("Slot-" ++ Str.of_int i)
            (Sqlite.instr ("Slot-" ++ Str.of_int i) "-" + 1))
    with (Str.of_int i).
  destruct i as [|p|p]; try lia.
  rewrite cast_of_int. unfold Sqlite.clamp64. lia.
Qed.

Lemma range_sorted lo hi : StronglySorted Z.lt (range lo hi).
Proof.
  destruct (Z.le_gt_cases hi lo) as [H|H].
  - unfold range. replace (Z.to_nat (hi - lo)) with O by lia. constructor.
  - replace hi with (lo + Z.of_nat (Z.to_nat (hi - lo))) by lia.
    induction (Z.to_nat (hi - lo)) as [|n IH].
    + unfold range. replace (Z.to_nat (lo + Z.of_nat 0 - lo)) with O by lia.
      constructor.
    + replace (lo + Z.of_nat (S n)) with (lo + Z.of_nat n + 1) by lia.
      rewrite range_snoc by lia. apply StronglySorted_snoc; auto.
      intros x Hx. apply in_range in Hx. lia.
Qed.

Lemma reachable_slot_keys db :
  reachable db -> Sql.count_slots db < 9223372036854775808 ->
  map slot_order_key (slots db) = range 1 (Sql.count_slots db + 1).
Proof.
  intros Hr Hk. pose proof (reachable_numbered db Hr) as Hnum.
  unfold numbered, labels in Hnum.
  transitivity (map (fun nm => Sqlite.cast_integer
                                 (Sqlite.substr nm (Sqlite.instr nm "-" + 1)))
                    (map slot_number (slots db))).
  { now rewrite map_map. }
  rewrite Hnum, map_map. rewrite <- (map_id (range 1 _)) at 2.
  apply map_ext_in. intros i Hi. apply in_range in Hi.
  apply (slot_order_key_of_name (mk_slot 0 (slot_name i) 0)); [reflexivity|lia].
Qed.

(** In every store reached from the empty one (with fewer than 2^63 slots),
    the sort key of the row labelled Slot-i is the number i, so the slot
    status window shows the slots in numeric order Slot-1, Slot-2, ...,
    which is their table order, each with "Available" for occupancy 0 and
    "Occupied" otherwise; its summary line gives the total, the number of
    parked vehicles as occupied, and the number of free slots as
    available. *)
Theorem slot_status_in_numeric_order db :
  reachable db -> Sql.count_slots db < 9223372036854775808 ->
  let K := Sql.count_slots db in
  map slot_order_key (slots db) = range 1 (K + 1)
  /\ fst (slot_status_window db)
     = map (fun s => (slot_number s,
                      if is_occupied s =? 0 then "Available" else "Occupied"))
           (slots db)
  /\ map fst (fst (slot_status_window db)) = map slot_name (range 1 (K + 1))
  /\ snd (slot_status_window db) = (K, Sql.count_parked db, Sql.count_free db).
Proof.
  intros Hr Hk. cbv zeta.
  pose proof (reachable_slot_keys db Hr Hk) as Hkeys.
  assert (Hsort : order_by (fun a b => slot_order_key a <=? slot_order_key b)
                           (slots db) = slots db).
  { apply order_by_sorted_same.
    apply (StronglySorted_weaken
             (fun a b => slot_order_key a < slot_order_key b)).
    - apply (proj1 (StronglySorted_map Z.lt slot_order_key (slots db))).
      rewrite Hkeys. apply range_sorted.
    - intros a b Hab. apply Z.leb_le. lia. }
  assert (Hrows : fst (slot_status_window db)
                  = map (fun s => (slot_number s,
                                   if is_occupied s =? 0
                                   then "Available" else "Occupied"))
                        (slots db)).
  { unfold slot_status_window. cbn [fst]. rewrite Hsort, map_map.
    apply map_ext. intros s. simpl. now destruct (is_occupied s =? 0). }
  split; [exact Hkeys|]. split; [exact Hrows|]. split.
  - rewrite Hrows, map_map. simpl. apply (reachable_numbered db Hr).
  - unfold slot_status_window. cbn [snd]. rewrite Hsort.
    pose proof (reachable_counts db Hr) as Hc.
    pose proof (filter_length (fun s => is_occupied s =? 0) (slots db)) as Hf.
    assert (Hocc : List.length
                     (filter (fun r : string * Z => negb (snd r =? 0))
                        (map (fun s => (slot_number s, is_occupied s))
                             (slots db)))
                   = List.length
                       (filter (fun s => negb (is_occupied s =? 0)) (slots db))).
    { clear. induction (slots db) as [|s l IH]; simpl; auto.
      destruct (is_occupied s =? 0); simpl; auto. }
    rewrite Hocc, length_map.
    unfold Sql.count_slots, Sql.count_free in *.
    repeat f_equal; lia.
Qed.

Lemma slot_status_in_numeric_order_witness :
  let db := run_all [Update_slots (Some 12)] three_slots_db in
  let K := Sql.count_slots db in
  map slot_order_key (slots db) = range 1 (K + 1)
  /\ fst (slot_status_window db)
     = map (fun s => (slot_number s,
                      if is_occupied s =? 0 then "Available" else "Occupied"))
           (slots db)
  /\ map fst (fst (slot_status_window db)) = map slot_name (range 1 (K + 1))
  /\ snd (slot_status_window db) = (K, Sql.count_parked db, Sql.count_free db).
Proof.
  apply (slot_status_in_numeric_order
           (run_all [Update_slots (Some 12)] three_slots_db)).
  - apply (reach_step three_slots_db (Update_slots (Some 12))).
    apply (reachable_run_all _).
  - vm_compute. reflexivity.
Defined.

(** ** The animated car *)

Lemma move_car_after_add (n m : nat) s :
  move_car_after (n + m) s = move_car_after m (move_car_after n s).
Proof.
  revert s. induction n as [|n IH]; intros s; simpl; auto.
Qed.

Lemma move_car_keeps_track x d :
  -50 <= x <= 950 -> x mod 4 = 2 -> (d = 1 \/ d = -1) ->
  let s := move_car x d in
  -50 <= fst s <= 950 /\ fst s mod 4 = 2 /\ (snd s = 1 \/ snd s = -1).
Proof.
  intros Hx Hm Hd. unfold move_car. cbv zeta.
  assert (Hdiv := Z.div_mod x 4 ltac:(lia)).
  destruct Hd as [-> | ->]; simpl.
  - destruct (Z.ltb_spec x 950); simpl.
    + repeat split; try lia; auto.
      replace (x + 4) with (x + 1 * 4) by lia. now rewrite Z.mod_add.
    + repeat split; try lia; auto.
  - destruct (Z.ltb_spec 50 x); simpl.
    + repeat split; try lia; auto.
      replace (x - 4) with (x + (-1) * 4) by lia. now rewrite Z.mod_add.
    + repeat split; try lia; auto.
Qed.

(** The car never leaves the track: at every timer tick it is drawn at an
    x between -50 and 950 and moves in direction 1 or -1; after the first
    250 ticks it stays between 50 and 950 and its motion repeats every 452
    ticks. *)
Theorem move_car_stays_on_track (n : nat) :
  let s := move_car_after n move_car_start in
  (-50 <= fst s <= 950 /\ (snd s = 1 \/ snd s = -1))
  /\ ((250 <= n)%nat ->
      50 <= fst s
      /\ move_car_after (n + 452) move_car_start = s).
Proof.
  cbv zeta.
  assert (Hinv : forall k s,
             (-50 <= fst s <= 950 /\ fst s mod 4 = 2
              /\ (snd s = 1 \/ snd s = -1)) ->
             -50 <= fst (move_car_after k s) <= 950
             /\ fst (move_car_after k s) mod 4 = 2
             /\ (snd (move_car_after k s) = 1 \/ snd (move_car_after k s) = -1)).
  { induction k as [|k IH]; intros s Hs; simpl; auto.
    apply IH. destruct Hs as (H1 & H2 & H3).
    now apply move_car_keeps_track. }
  assert (Hhigh : forall k s,
             (50 <= fst s <= 950 /\ fst s mod 4 = 2
              /\ (snd s = 1 \/ snd s = -1)) ->
             50 <= fst (move_car_after k s)).
  { induction k as [|k IH]; intros s Hs; simpl; [lia|].
    apply IH. destruct s as [x d]. simpl in *.
    destruct Hs as (Hx & Hm & Hd).
    destruct (move_car_keeps_track x d ltac:(lia) Hm Hd) as (_ & Hm' & Hd').
    split; [|split; assumption].
    assert (Hdiv := Z.div_mod x 4 ltac:(lia)).
    unfold move_car. destruct Hd as [-> | ->]; simpl.
    - destruct (Z.ltb_spec x 950); simpl; lia.
    - destruct (Z.ltb_spec 50 x); simpl; lia. }
  split.
  - destruct (Hinv n move_car_start) as (H1 & _ & H3).
    + repeat split; simpl; auto; lia.
    + split; assumption.
  - intros Hn.
    assert (E250 : move_car_after 250 move_car_start = (950, 1))
      by (vm_compute; reflexivity).
    assert (E452 : move_car_after 452 (950, 1) = (950, 1))
      by (vm_compute; reflexivity).
    replace n with (250 + (n - 250))%nat by lia.
    rewrite move_car_after_add, E250. split.
    + apply Hhigh. simpl. repeat split; auto; lia.
    + replace (250 + (n - 250) + 452)%nat with (250 + (452 + (n - 250)))%nat
        by lia.
      now rewrite move_car_after_add, E250, move_car_after_add, E452.
Qed.

Lemma move_car_stays_on_track_witness :
  50 <= fst (move_car_after 300 move_car_start)
  /\ move_car_after (300 + 452) move_car_start
     = move_car_after 300 move_car_start.
Proof.
  apply (move_car_stays_on_track 300). lia.
Defined.

(** ** Which slot is assigned *)

Lemma find_first {A} (f : A -> bool) (l : list A) x :
  find f l = Some x ->
  exists pre post, l = (pre ++ x :: post)%list /\ f x = true
                   /\ forall y, In y pre -> f y = false.
Proof.
  induction l as [|a l IH]; simpl; [discriminate|].
  destruct (f a) eqn:E.
  - intros [= <-]. exists [], l. repeat split; auto. intros y [].
  - intros H. destruct (IH H) as (pre & post & -> & Hx & Hpre).
    exists (a :: pre), post. repeat split; auto.
    intros y [<-|Hy]; auto.
Qed.

Lemma range_app lo mid hi :
  lo <= mid <= hi -> range lo hi = (range lo mid ++ range mid hi)%list.
Proof.
  intros H. replace hi with (mid + Z.of_nat (Z.to_nat (hi - mid))) by lia.
  induction (Z.to_nat (hi - mid)) as [|k IH].
  - replace (mid + Z.of_nat 0) with mid by lia.
    unfold range at 3. replace (Z.to_nat (mid - mid)) with O by lia.
    simpl. now rewrite app_nil_r.
  - replace (mid + Z.of_nat (S k)) with (mid + Z.of_nat k + 1) by lia.
    rewrite !range_snoc by lia. rewrite IH. symmetry. apply app_assoc.
Qed.

Lemma app_same_length {A} (l1 l2 l1' l2' : list A) :
  (l1 ++ l2 = l1' ++ l2')%list -> List.length l1 = List.length l1' ->
  l1 = l1' /\ l2 = l2'.
Proof.
  revert l1'. induction l1 as [|a l1 IH]; intros [|b l1']; simpl;
    try discriminate; auto.
  intros [= <- E] [= L]. destruct (IH _ E L) as [-> ->]. auto.
Qed.

(** In every store reached from the empty one, a vehicle is always given
    the free slot with the lowest number: when [submit] answers
    "Parked in Slot-i", slot i was free and every slot with a smaller number
    was occupied. *)
Theorem lowest_free_slot_assigned db o n now slot_no :
  reachable db -> fst (submit db o n now) = Parked slot_no ->
  exists i,
    slot_no = slot_name i /\ 1 <= i <= Sql.count_slots db
    /\ (exists s, In s (slots db) /\ slot_number s = slot_name i
                  /\ is_occupied s = 0)
    /\ (forall s j, In s (slots db) -> slot_number s = slot_name j -> j < i ->
          is_occupied s <> 0).
Proof.
  intros Hr Hp. pose proof (reachable_numbered db Hr) as Hnum.
  destruct (submit_parked_store db o n now)
    as [E|(sid & sno & _ & Hf & _ & E)].
  { exfalso. unfold submit in *.
    destruct (negb _); simpl in *; [discriminate|].
    destruct (Sql.select_free_slot db) as [[sid sno]|]; [|discriminate].
    unfold try_execute in *. simpl in *.
    destruct (Sql.insert_vehicle _ _ _ _ db) as [w|] eqn:Ei; [|discriminate].
    simpl in E. unfold Sql.insert_vehicle in Ei.
    destruct (existsb _ (vehicles db)); [discriminate|].
    injection Ei as <-.
    apply (f_equal (fun d => List.length (vehicles d))) in E. simpl in E.
    rewrite length_app in E. simpl in E. lia. }
  rewrite E in Hp. simpl in Hp. injection Hp as <-.
  unfold Sql.select_free_slot in Hf.
  destruct (find _ (slots db)) as [s|] eqn:F; [|discriminate].
  injection Hf as <- <-.
  apply find_first in F as (pre & post & Hl & Hocc & Hpre).
  apply Z.eqb_eq in Hocc.
  unfold numbered, labels, Sql.count_slots in *. rewrite Hl in *.
  rewrite length_app in *. simpl List.length in *.
  set (p := Z.of_nat (List.length pre)) in *.
  rewrite (range_app 1 (p + 1)) in Hnum by lia.
  rewrite (range_app (p + 1) (p + 2)
             (Z.of_nat (List.length pre + S (List.length post)) + 1))
    in Hnum by lia.
  rewrite !map_app in Hnum.
  apply app_same_length in Hnum as [Hpre_l Hrest].
  2:{ rewrite !length_map, range_length. unfold p. lia. }
  replace (range (p + 1) (p + 2)) with [p + 1] in Hrest
    by (unfold range; replace (Z.to_nat (p + 2 - (p + 1))) with 1%nat by lia;
        simpl; f_equal; lia).
  simpl in Hrest. injection Hrest as Hs Hpost.
  exists (p + 1). split; [exact Hs|]. split; [unfold p; lia|]. split.
  - exists s. repeat split; auto. apply in_or_app. right. now left.
  - intros s' j Hin Hj Hlt Hz.
    apply in_app_iff in Hin as [Hin|[<-|Hin]].
    + apply Z.eqb_eq in Hz. rewrite (Hpre s' Hin) in Hz. discriminate.
    + rewrite Hs in Hj. apply slot_name_inj in Hj. lia.
    + assert (Hm : In (slot_name j) (map slot_number post))
        by (rewrite <- Hj; now apply in_map).
      rewrite Hpost in Hm. apply slot_name_in_range in Hm. lia.
Qed.

Lemma lowest_free_slot_assigned_witness :
  exists i,
    "Slot-3" = slot_name i /\ 1 <= i <= Sql.count_slots three_slots_db
    /\ (exists s, In s (slots three_slots_db) /\ slot_number s = slot_name i
                  /\ is_occupied s = 0)
    /\ (forall s j, In s (slots three_slots_db) ->
          slot_number s = slot_name j -> j < i -> is_occupied s <> 0).
Proof.
  apply (lowest_free_slot_assigned three_slots_db "c" "Z" 60000000 "Slot-3").
  - apply (reachable_run_all _).
  - vm_compute. reflexivity.
Defined.
